(** * ControlBombas.py: two-pump supervisory control on a Raspberry Pi Pico

    Shallow embedding of [src/ControlBombas.py].  The class [Bomba] becomes a
    record and its methods functions on it; the module globals ([b1], [b2],
    [ciclo], [flotante_previo]) and the hardware inputs live in a [Sistema]
    record threaded by a small state/writer monad [M].  Every hardware effect
    (relay write, pin read, ADC window, one-wire transaction, sleep, LCD write)
    is recorded as an [evento], in program order.

    Units: currents are in tenths of an ampere ([round(.., 1)] in
    [medir_corriente] keeps one decimal), temperatures in degrees (the code
    stores [int(read_temp(..))]), sleeps in milliseconds.  Text is a list of
    Unicode code points, as Python's [str] measures it. *)

From Stdlib Require Import ZArith NArith List String Ascii Bool Lia.
Import ListNotations.
Open Scope Z_scope.

(** ** Text *)

Definition texto := list N.

Definition de_ascii (s : string) : texto :=
  map N_of_ascii (list_ascii_of_string s).

Definition espacio : N := 32%N.

(** CPython [str.center(width)] with the default fill character:
    unchanged when [len(s) >= width], otherwise
    [marg = width - len(s); left = marg // 2 + (marg & width & 1)], where
    [marg & width & 1] is 1 exactly when [marg] and [width] are both odd. *)
Definition center (width : nat) (s : texto) : texto :=
  let len := List.length s in
  if Nat.leb width len then s
  else
    let marg := (width - len)%nat in
    let left := (Nat.div2 marg + (if Nat.odd marg && Nat.odd width then 1 else 0))%nat in
    repeat espacio left ++ s ++ repeat espacio (marg - left).

(** Decimal digits of a natural number, most significant first. *)
Fixpoint digitos_aux (fuel : nat) (n : N) (acc : texto) : texto :=
  match fuel with
  | O => acc
  | S f =>
      let acc' := (48 + N.modulo n 10)%N :: acc in
      if (n <? 10)%N then acc' else digitos_aux f (n / 10)%N acc'
  end.

Definition str_N (n : N) : texto := digitos_aux (S (N.size_nat n)) n [].

(** Python [str] of an [int]. *)
Definition str_int (z : Z) : texto :=
  if z <? 0 then 45%N :: str_N (Z.abs_N z) else str_N (Z.to_N z).

(** Python [str] of a float rounded to one decimal, given in tenths
    ([round(x, 1)] prints as [d.d]; a [-0.0] prints here as [0.0]). *)
Definition str_decimas (c : Z) : texto :=
  (if c <? 0 then [45%N] else [])
    ++ str_N (Z.abs_N c / 10) ++ [46%N; (48 + Z.abs_N c mod 10)%N].

(** ** Hardware effects *)

Inductive evento : Type :=
| Rele (pin : Z) (encendido : bool)   (* Pin.on() / Pin.off() on a relay output *)
| LeerPin (pin : Z)                   (* Pin.value() on a switch input *)
| MuestrasCorriente                   (* the 1000 ADC(26).read_u16() and 1 ms sleeps *)
| ConvertirTemp (pin : Z)             (* DS18X20.convert_temp() *)
| LeerTemp (pin : Z)                  (* DS18X20.read_temp(id) *)
| ResetBus (pin : Z)                  (* OneWire.reset() *)
| Dormir (ms : Z)                     (* utime.sleep *)
| LcdEn (col row : nat) (t : texto)   (* lcd.clear(); lcd.move_to(col,row); lcd.putstr(t) *)
| Lcd (l1 l2 : texto).                (* display(l1, l2): the two strings given to putstr *)

(** ** Class [Bomba] *)

Record Bomba : Type := mkBomba {
  numero : Z;
  tension : Z;
  corriente_nominal : Z;
  potencia : Z;
  id_temp : list Z;
  corriente_falla : Z;
  temp_falla : Z;
  rele : Z;
  pin_sensor : Z;
  estado_bomba : bool;
  estado_falla : bool;
  corriente : Z;
  temperatura : Z
}.

Definition set_estado_bomba (v : bool) (b : Bomba) : Bomba :=
  mkBomba (numero b) (tension b) (corriente_nominal b) (potencia b) (id_temp b)
    (corriente_falla b) (temp_falla b) (rele b) (pin_sensor b)
    v (estado_falla b) (corriente b) (temperatura b).

Definition set_estado_falla (v : bool) (b : Bomba) : Bomba :=
  mkBomba (numero b) (tension b) (corriente_nominal b) (potencia b) (id_temp b)
    (corriente_falla b) (temp_falla b) (rele b) (pin_sensor b)
    (estado_bomba b) v (corriente b) (temperatura b).

Definition set_corriente (v : Z) (b : Bomba) : Bomba :=
  mkBomba (numero b) (tension b) (corriente_nominal b) (potencia b) (id_temp b)
    (corriente_falla b) (temp_falla b) (rele b) (pin_sensor b)
    (estado_bomba b) (estado_falla b) v (temperatura b).

Definition set_temperatura (v : Z) (b : Bomba) : Bomba :=
  mkBomba (numero b) (tension b) (corriente_nominal b) (potencia b) (id_temp b)
    (corriente_falla b) (temp_falla b) (rele b) (pin_sensor b)
    (estado_bomba b) (estado_falla b) (corriente b) v.

(** [Bomba.__init__(numero, id_temp, corriente_falla, pin_rele, pin_sensor,
    temp_falla=70, tension=380, corriente_nominal=0, potencia=0)];
    [corriente_falla] is given in tenths of an ampere. *)
Definition nueva_bomba (numero : Z) (id_temp : list Z) (corriente_falla : Z)
    (pin_rele pin_sensor : Z) : Bomba :=
  mkBomba numero 380 0 0 id_temp corriente_falla 70 pin_rele pin_sensor
    false false 0 0.

(** [marcha]: relay on, [estado_bomba = True]; no other check. *)
Definition marcha (b : Bomba) : Bomba * list evento :=
  (set_estado_bomba true b, [Rele (rele b) true]).

(** [parada]: relay off, [estado_bomba = False]. *)
Definition parada (b : Bomba) : Bomba * list evento :=
  (set_estado_bomba false b, [Rele (rele b) false]).

(** [falla]: [self.parada()], then [estado_bomba = False], [estado_falla = True]. *)
Definition falla (b : Bomba) : Bomba * list evento :=
  let '(b1, ev) := parada b in
  (set_estado_falla true (set_estado_bomba false b1), ev).

(** The 1000 samples of one call, [lista], each already converted to tenths
    of an ampere by [round((reading - 1.65) / .066, 1)]: sample [i] is [w i]. *)
Definition muestras (w : nat -> Z) : list Z := map w (seq 0 1000).

(** Python [max] of a list (never empty here: [muestras] has 1000 items). *)
Definition max_lista (l : list Z) : Z :=
  match l with
  | [] => 0
  | x :: r => fold_left Z.max r x
  end.

Definition medir_corriente (w : nat -> Z) (b : Bomba) : Bomba * list evento :=
  let lista := muestras w in
  if max_lista lista >=? corriente_falla b then
    let '(b', ev) := falla b in (b', MuestrasCorriente :: ev)
  else (set_corriente (max_lista lista) b, [MuestrasCorriente]).

(** What the DS18B20 answers to one [medir_temperatura]: the raw register (in
    sixteenths of a degree, [read_temp] returns [raw / 16]), or a bus error
    raised by [convert_temp] or by [read_temp]. *)
Inductive lectura_temp : Type :=
| TempOk (raw : Z)
| FalloConversion
| FalloLectura.

(** The [try] body of [medir_temperatura]: [inl] when it raises (with the pump
    and the effects so far), [inr] when it completes. *)
Definition cuerpo_try_temperatura (r : lectura_temp) (b : Bomba)
    : (Bomba * list evento) + (Bomba * list evento) :=
  let p := pin_sensor b in
  match r with
  | FalloConversion => inl (b, [ConvertirTemp p])
  | FalloLectura => inl (b, [ConvertirTemp p; Dormir 1000; LeerTemp p])
  | TempOk raw =>
      let ev := [ConvertirTemp p; Dormir 1000; LeerTemp p] in
      let temp := Z.quot raw 16 in            (* int(sensor.read_temp(id)) *)
      if temp >=? temp_falla b then
        let '(b', ev') := falla b in inr (b', ev ++ ev')
      else inr (set_temperatura temp b, ev)
  end.

(** [except: ow.reset()] *)
Definition medir_temperatura (r : lectura_temp) (b : Bomba) : Bomba * list evento :=
  match cuerpo_try_temperatura r b with
  | inr (b', ev) => (b', ev)
  | inl (b', ev) => (b', ev ++ [ResetBus (pin_sensor b)])
  end.

(** ** Module state and hardware inputs *)

(** The values the hardware will deliver, in the order the code asks for
    them: one list per input.  An exhausted list reads as the idle input:
    a low pin (the switches are [PULL_DOWN]), an ACS712 at its 1.65 V midpoint
    (0 A), a one-wire bus with no answer. *)
Record Hw : Type := mkHw {
  hw_manual : list bool;           (* Pin 12 *)
  hw_bomba1 : list bool;           (* Pin 14 *)
  hw_flotante : list bool;         (* Pin 11 *)
  hw_adc : list (nat -> Z);        (* one window of samples per medir_corriente *)
  hw_ds18 : list lectura_temp      (* one answer per medir_temperatura *)
}.

Record Sistema : Type := mkSistema {
  b1 : Bomba;
  b2 : Bomba;
  ciclo : Z;
  flotante_previo : bool;
  hw : Hw
}.

Inductive idb : Type := B1 | B2.

Definition otra (i : idb) : idb := match i with B1 => B2 | B2 => B1 end.

Definition bomba (i : idb) (s : Sistema) : Bomba :=
  match i with B1 => b1 s | B2 => b2 s end.

Definition con_bomba (i : idb) (b : Bomba) (s : Sistema) : Sistema :=
  match i with
  | B1 => mkSistema b (b2 s) (ciclo s) (flotante_previo s) (hw s)
  | B2 => mkSistema (b1 s) b (ciclo s) (flotante_previo s) (hw s)
  end.

Definition set_ciclo (c : Z) (s : Sistema) : Sistema :=
  mkSistema (b1 s) (b2 s) c (flotante_previo s) (hw s).

Definition set_previo (v : bool) (s : Sistema) : Sistema :=
  mkSistema (b1 s) (b2 s) (ciclo s) v (hw s).

Definition set_hw (h : Hw) (s : Sistema) : Sistema :=
  mkSistema (b1 s) (b2 s) (ciclo s) (flotante_previo s) h.

(** ** State and effect monad *)

Definition M (A : Type) : Type := Sistema -> A * Sistema * list evento.

Definition ret {A} (a : A) : M A := fun s => (a, s, []).

Definition bind {A B} (m : M A) (k : A -> M B) : M B :=
  fun s =>
    let r1 := m s in
    let r2 := k (fst (fst r1)) (snd (fst r1)) in
    (fst (fst r2), snd (fst r2), snd r1 ++ snd r2).

Notation "x <- m ;; k" := (bind m (fun x => k))
  (at level 61, m at next level, right associativity).
Notation "m ;; k" := (bind m (fun _ => k)) (at level 61, right associativity).

Definition gets {A} (f : Sistema -> A) : M A := fun s => (f s, s, []).
Definition modify (f : Sistema -> Sistema) : M unit := fun s => (tt, f s, []).
Definition emitir (ev : list evento) : M unit := fun s => (tt, s, ev).
Definition dormir (ms : Z) : M unit := emitir [Dormir ms].

(** Call a method of [b1] or [b2]. *)
Definition metodo (i : idb) (f : Bomba -> Bomba * list evento) : M unit :=
  fun s => let r := f (bomba i s) in (tt, con_bomba i (fst r) s, snd r).

Definition pop {A} (d : A) (l : list A) : A * list A :=
  match l with [] => (d, []) | x :: r => (x, r) end.

Inductive entrada : Type := Manual | Flotante | SelBomba1.

Definition pin_entrada (e : entrada) : Z :=
  match e with Manual => 12 | Flotante => 11 | SelBomba1 => 14 end.

(** [Pin.value()] on [manual], [flotante] or [bomba1]. *)
Definition leer (e : entrada) : M bool :=
  fun s =>
    let h := hw s in
    let '(v, h') :=
      match e with
      | Manual => let '(v, r) := pop false (hw_manual h) in
                  (v, mkHw r (hw_bomba1 h) (hw_flotante h) (hw_adc h) (hw_ds18 h))
      | SelBomba1 => let '(v, r) := pop false (hw_bomba1 h) in
                  (v, mkHw (hw_manual h) r (hw_flotante h) (hw_adc h) (hw_ds18 h))
      | Flotante => let '(v, r) := pop false (hw_flotante h) in
                  (v, mkHw (hw_manual h) (hw_bomba1 h) r (hw_adc h) (hw_ds18 h))
      end in
    (v, set_hw h' s, [LeerPin (pin_entrada e)]).

Definition leer_adc : M (nat -> Z) :=
  fun s =>
    let h := hw s in
    let '(w, r) := pop (fun _ => 0) (hw_adc h) in
    (w, set_hw (mkHw (hw_manual h) (hw_bomba1 h) (hw_flotante h) r (hw_ds18 h)) s, []).

Definition leer_ds18 : M lectura_temp :=
  fun s =>
    let h := hw s in
    let '(t, r) := pop FalloConversion (hw_ds18 h) in
    (t, set_hw (mkHw (hw_manual h) (hw_bomba1 h) (hw_flotante h) (hw_adc h) r) s, []).

(** [bX.medir_corriente()] and [bX.medir_temperatura()] *)
Definition medir_corriente_b (i : idb) : M unit :=
  w <- leer_adc ;; metodo i (medir_corriente w).

Definition medir_temperatura_b (i : idb) : M unit :=
  r <- leer_ds18 ;; metodo i (medir_temperatura r).

(** ** Module functions *)

Definition display (linea1 linea2 : texto) : M unit :=
  emitir [Lcd (center 16 linea1) (center 16 linea2)].

Definition linea_servicio : texto :=
  de_ascii "servicio t" ++ [233%N] ++ de_ascii "cnico".

(** The second alarm line of the dual-fault branch, as spelt at line 300. *)
Definition linea_servivcio : texto :=
  de_ascii "servivcio t" ++ [233%N] ++ de_ascii "cnico".

Definition bomba_on (i : idb) : texto :=
  match i with B1 => de_ascii "Bomba 1: ON" | B2 => de_ascii "Bomba 2: ON" end.

Definition linea_corriente (i : idb) (c : Z) : texto :=
  de_ascii (match i with B1 => "I B1: " | B2 => "I B2: " end)
    ++ str_decimas c ++ de_ascii " A".

Definition linea_temperatura (i : idb) (t : Z) : texto :=
  de_ascii (match i with B1 => "Temp. B1: " | B2 => "Temp. B2: " end)
    ++ str_int t ++ de_ascii " C".

Definition inicio : M unit :=
  dormir 2000 ;;
  metodo B1 parada ;;
  metodo B2 parada ;;
  emitir [LcdEn 2 0 (de_ascii "Iniciando...")] ;;
  dormir 3000 ;;
  emitir [LcdEn 1 0 (de_ascii "Esperando...")] ;;
  dormir 3000.

Definition verificar_manual : M bool :=
  v <- leer Manual ;; if v then ret true else ret false.

Definition verificar_bomba1 : M bool :=
  v <- leer SelBomba1 ;; if v then ret true else ret false.

Definition marcha_manual : M bool :=
  m <- verificar_manual ;;
  if m then
    sel <- verificar_bomba1 ;;
    (if sel then
       metodo B2 parada ;; dormir 1000 ;; metodo B1 marcha ;;
       display (de_ascii "Modo: Manual") (de_ascii "Bomba 1: ON")
     else
       metodo B1 parada ;; dormir 1000 ;; metodo B2 marcha ;;
       display (de_ascii "Modo: Manual") (de_ascii "Bomba 2: ON")) ;;
    ret true
  else ret false.

Definition verificar_flotante : M bool :=
  v <- leer Flotante ;;
  if v then
    p <- gets flotante_previo ;;
    (if negb p then
       modify (set_previo true) ;; modify (fun s => set_ciclo (ciclo s + 1) s)
     else ret tt) ;;
    ret true
  else
    p <- gets flotante_previo ;;
    (if p then modify (set_previo false) else ret tt) ;;
    ret false.

Definition marcha_auto : M bool :=
  m <- verificar_manual ;;
  if negb m then
    f <- verificar_flotante ;;
    (if f then
       c <- gets ciclo ;;
       if c mod 2 =? 0 then
         metodo B2 parada ;; dormir 1000 ;; metodo B1 marcha ;;
         display (de_ascii "Modo: Auto") (de_ascii "Bomba 1: ON")
       else
         metodo B1 parada ;; dormir 1000 ;; metodo B2 marcha ;;
         display (de_ascii "Modo: Auto") (de_ascii "Bomba 2: ON")
     else
       metodo B1 parada ;; metodo B2 parada ;;
       display (de_ascii "Esperando...") []) ;;
    ret true
  else ret false.

(** Where the program is between two iterations of a [while True] loop: the
    loop of [main], the single-fault loop of [verificar_falla] entered for
    the faulted pump [caida] (lines 304 and 335), or one of its alarm loops
    (lines 293, 322 and 353), which differ by their last line. *)
Inductive Lugar : Type :=
| EnMain
| EnFalla (caida : idb)
| EnAlarma (linea : texto).

(** [verificar_falla()] up to its loops: [None] when it returns, [Some l]
    when it enters the [while True] loop [l], which it never leaves. *)
Definition verificar_falla : M (option Lugar) :=
  f1 <- gets (fun s => estado_falla (b1 s)) ;;
  f2 <- gets (fun s => estado_falla (b2 s)) ;;
  if f1 && f2 then
    metodo B1 parada ;; metodo B2 parada ;; ret (Some (EnAlarma linea_servivcio))
  else if f1 then
    metodo B1 parada ;; ret (Some (EnFalla B1))
  else if f2 then
    metodo B2 parada ;; ret (Some (EnFalla B2))
  else ret None.

(** One iteration of an alarm loop. *)
Definition alarma (linea2 : texto) : M unit :=
  display (de_ascii "Falla en") (de_ascii "ambas bombas") ;;
  dormir 5000 ;;
  display (de_ascii "Llamar al") linea2 ;;
  dormir 5000.

(** [corriente = 'I Bn: ' + str(bn.corriente) + ' A'; ...; display(..)] *)
Definition mostrar_medicion (i : idb) : M unit :=
  c <- gets (fun s => corriente (bomba i s)) ;;
  t <- gets (fun s => temperatura (bomba i s)) ;;
  display (linea_corriente i c) (linea_temperatura i t).

(** One iteration of the single-fault loop for the faulted pump [c]: the
    other pump [otra c] runs alone while the float is active. *)
Definition cuerpo_falla (c : idb) : M Lugar :=
  let sana := otra c in
  f <- verificar_flotante ;;
  if f then
    fs <- gets (fun s => estado_falla (bomba sana s)) ;;
    if negb fs then
      metodo sana marcha ;;
      display (de_ascii "Modo: Auto") (bomba_on sana) ;;
      medir_corriente_b sana ;;
      medir_temperatura_b sana ;;
      fs' <- gets (fun s => estado_falla (bomba sana s)) ;;
      (if negb fs' then dormir 2000 ;; mostrar_medicion sana ;; dormir 2000
       else ret tt) ;;
      ret (EnFalla c)
    else ret (EnAlarma linea_servicio)
  else
    metodo sana parada ;; ret (EnFalla c).

(** Lines 377-390 (pump [B1]) and 391-404 (pump [B2]) of [main]. *)
Definition rama_medicion (i : idb) : M (option Lugar) :=
  medir_corriente_b i ;;
  medir_temperatura_b i ;;
  f <- gets (fun s => estado_falla (bomba i s)) ;;
  if negb f then
    dormir 2000 ;; mostrar_medicion i ;; dormir 2000 ;; ret None
  else verificar_falla.

(** One iteration of the loop of [main]. *)
Definition iteracion_main : M (option Lugar) :=
  _ <- marcha_manual ;;
  _ <- marcha_auto ;;
  b1_en_marcha <- gets (fun s => estado_bomba (b1 s)) ;;
  b2_en_marcha <- gets (fun s => estado_bomba (b2 s)) ;;
  r <- (if b1_en_marcha then rama_medicion B1 else ret None) ;;
  match r with
  | Some l => ret (Some l)
  | None => if b2_en_marcha then rama_medicion B2 else ret None
  end.

(** One iteration of whichever loop the program is in. *)
Definition paso (l : Lugar) : M Lugar :=
  match l with
  | EnMain =>
      r <- iteracion_main ;;
      ret (match r with Some l' => l' | None => EnMain end)
  | EnFalla c => cuerpo_falla c
  | EnAlarma t => alarma t ;; ret (EnAlarma t)
  end.

Fixpoint ejecutar (n : nat) (l : Lugar) : M Lugar :=
  match n with
  | O => ret l
  | S k => l' <- paso l ;; ejecutar k l'
  end.

(** The module globals after import: [b1], [b2], [ciclo = 0],
    [flotante_previo = False]. *)
Definition estado_modulo (h : Hw) : Sistema :=
  mkSistema
    (nueva_bomba 1 [40; 11; 181; 117; 208; 1; 60; 146] 130 22 6)
    (nueva_bomba 2 [40; 222; 39; 117; 208; 1; 60; 137] 130 21 6)
    0 false h.

(** States reached by [main()]: [inicio()] and then loop iterations, for any
    hardware inputs. *)
Inductive alcanzable : Lugar -> Sistema -> Prop :=
| alc_inicio h s ev :
    inicio (estado_modulo h) = (tt, s, ev) -> alcanzable EnMain s
| alc_paso l s l' s' ev :
    alcanzable l s -> paso l s = (l', s', ev) -> alcanzable l' s'.

(** ** Notions used by the properties *)

Fixpoint repetir {A} (n : nat) (m : M A) : M (list A) :=
  match n with
  | O => ret []
  | S k => x <- m ;; xs <- repetir k m ;; ret (x :: xs)
  end.

(** Number of low-to-high transitions in a sequence of float readings, the
    level before the first one being [prev]. *)
Fixpoint flancos (prev : bool) (vs : list bool) : Z :=
  match vs with
  | [] => 0
  | v :: r => (if v && negb prev then 1 else 0) + flancos v r
  end.

(** The last level of a sequence of readings ([prev] if there is none). *)
Definition ultimo (prev : bool) (vs : list bool) : bool :=
  fold_left (fun _ v => v) vs prev.

Definition con_flotante (l : list bool) (s : Sistema) : Sistema :=
  set_hw (mkHw (hw_manual (hw s)) (hw_bomba1 (hw s)) l (hw_adc (hw s)) (hw_ds18 (hw s))) s.

Definition st {A} (x : A * Sistema * list evento) : Sistema := snd (fst x).

(** A faulted pump is stopped. *)
Definition ok (b : Bomba) : Prop := estado_falla b = true -> estado_bomba b = false.

(** The relay pin given to the constructor of each pump. *)
Definition pin_rele (i : idb) : Z := match i with B1 => 22 | B2 => 21 end.

Definition pines (s : Sistema) : Prop := forall i, rele (bomba i s) = pin_rele i.

(** What holds between two iterations of the loop the program is in. *)
Definition inv (l : Lugar) (s : Sistema) : Prop :=
  pines s /\
  match l with
  | EnMain => forall i, estado_falla (bomba i s) = false
  | EnFalla c =>
      estado_falla (bomba c s) = true /\ estado_bomba (bomba c s) = false /\
      ok (bomba (otra c) s)
  | EnAlarma _ =>
      forall i, estado_falla (bomba i s) = true /\ estado_bomba (bomba i s) = false
  end.

Definition enciende (e : evento) : bool :=
  match e with Rele _ true => true | _ => false end.


(** A measurement either leaves [estado_falla] and [estado_bomba] alone or
    faults and stops the pump; it never changes the relay pin. *)
Definition evoluciona (b b' : Bomba) : Prop :=
  rele b' = rele b /\
  ((estado_falla b' = estado_falla b /\ estado_bomba b' = estado_bomba b) \/
   (estado_falla b' = true /\ estado_bomba b' = false)).

(** [bX.medir_corriente()] and [bX.medir_temperatura()] touch only [bX]. *)
Definition evol (i : idb) (s s' : Sistema) : Prop :=
  bomba (otra i) s' = bomba (otra i) s /\ evoluciona (bomba i s) (bomba i s').

(** Code that leaves both pumps alone and drives no relay high. *)
Definition intacto {A} (m : M A) : Prop :=
  forall s a s' ev, m s = (a, s', ev) ->
    b1 s' = b1 s /\ b2 s' = b2 s /\ Forall (fun e => enciende e = false) ev.

(** Code that keeps each pump's relay pin and fault flag. *)
Definition conserva {A} (m : M A) : Prop :=
  forall s a s' ev, m s = (a, s', ev) ->
    forall i, rele (bomba i s') = rele (bomba i s) /\
              estado_falla (bomba i s') = estado_falla (bomba i s).

(** Code that touches only pump [i], by a measurement, and drives no relay
    high; its result satisfies [Q]. *)
Definition solo {A} (i : idb) (Q : A -> Prop) (m : M A) : Prop :=
  forall s a s' ev, m s = (a, s', ev) ->
    Q a /\ evol i s s' /\ Forall (fun e => enciende e = false) ev.

(** Faults present in [s] are still present in [s'], and [ev] never drives
    the relay of a faulted pump high. *)
Definition respeta (s s' : Sistema) (ev : list evento) : Prop :=
  forall i, estado_falla (bomba i s) = true ->
    estado_falla (bomba i s') = true /\ ~ In (Rele (pin_rele i) true) ev.

(** A run to both faults: the manual switch reads low twice, the float reads
    high, high, low, and the two current windows both peak at 13.0 A. *)
Definition hw_doble : Hw :=
  mkHw [false; false] [] [true; true; false] [fun _ => 130; fun _ => 130] [].

Definition s_doble0 : Sistema := st (inicio (estado_modulo hw_doble)).
Definition s_doble1 : Sistema := st (paso EnMain s_doble0).

(** Not both pumps running. *)
Definition exclusivas (s : Sistema) : Prop :=
  estado_bomba (b1 s) && estado_bomba (b2 s) = false.

(** Code that never starts a pump: a pump running afterwards was running
    before. *)
Definition no_arranca {A} (m : M A) : Prop :=
  forall s a s' ev, m s = (a, s', ev) ->
    forall i, estado_bomba (bomba i s') = true -> estado_bomba (bomba i s) = true.

(** Code after which not both pumps are running, if they were not before. *)
Definition mantiene_exclusivas {A} (m : M A) : Prop :=
  forall s a s' ev, m s = (a, s', ev) -> exclusivas s -> exclusivas s'.

(** Code whose result satisfies [Q]. *)
Definition resulta {A} (Q : A -> Prop) (m : M A) : Prop :=
  forall s a s' ev, m s = (a, s', ev) -> Q a.

(** Level of the relay on [pin] after the relay writes of [ev], [v0] before
    them. *)
Definition nivel_rele (pin : Z) (v0 : bool) (ev : list evento) : bool :=
  fold_left (fun v e => match e with Rele p b => if p =? pin then b else v | _ => v end) ev v0.

(** Effects that drive no relay at all. *)
Definition sin_rele (ev : list evento) : Prop :=
  Forall (fun e => match e with Rele _ _ => False | _ => True end) ev.

(** Code after which each pump's relay, as last written, shows its
    [estado_bomba], if it did before; relay pins are kept. *)
Definition refleja {A} (m : M A) : Prop :=
  forall s a s' ev, pines s -> m s = (a, s', ev) ->
    pines s' /\
    forall i, nivel_rele (pin_rele i) (estado_bomba (bomba i s)) ev = estado_bomba (bomba i s').

(** * ControlSemaforos.py: traffic light driven by an infrared barrier

    The four output pins are a record [Salidas]; the attribute
    [Barrera.__estado] and the inputs (successive values of Pin 21 and of
    the ADC on Pin 26) are threaded explicitly.  [regular_tiempo] computes a
    float delay from the ADC reading; the delay is kept as that reading, in
    the sleep it sets ([DormirAjuste]). *)

Module Semaforos.

Record Salidas : Type := mkSalidas {
  buzzer_d : bool;   (* Pin 20 *)
  buzzer_i : bool;   (* Pin 19 *)
  verde : bool;      (* Pin 18 *)
  roja : bool        (* Pin 17 *)
}.

Inductive salida : Type := BuzzerD | BuzzerI | Verde | Roja.

Definition pin_salida (o : salida) : Z :=
  match o with BuzzerD => 20 | BuzzerI => 19 | Verde => 18 | Roja => 17 end.

Definition poner (o : salida) (v : bool) (x : Salidas) : Salidas :=
  match o with
  | BuzzerD => mkSalidas v (buzzer_i x) (verde x) (roja x)
  | BuzzerI => mkSalidas (buzzer_d x) v (verde x) (roja x)
  | Verde => mkSalidas (buzzer_d x) (buzzer_i x) v (roja x)
  | Roja => mkSalidas (buzzer_d x) (buzzer_i x) (verde x) v
  end.

(** An exhausted input list reads as an idle input: the barrier pin low
    ([PULL_DOWN]), the ADC at 0. *)
Record Estado : Type := mkEstado {
  salidas : Salidas;
  estado : bool;                  (* Barrera.__estado *)
  lecturas_barrera : list bool;   (* barrera.value(), Pin 21 *)
  lecturas_ajuste : list Z        (* ajuste_tiempo.read_u16(), ADC 26 *)
}.

Inductive evento : Type :=
| LeerBarrera (v : bool)
| LeerAjuste (lectura : Z)
| DormirAjuste (lectura : Z)      (* utime.sleep(self.regular_tiempo()) *)
| Dormir (segundos : Z)
| Escribir (pin : Z) (v : bool).

(** [Barrera.sensar] *)
Definition sensar (s : Estado) : Estado * list evento :=
  let '(v, r) := pop false (lecturas_barrera s) in
  (mkEstado (salidas s) (if v then true else false) r (lecturas_ajuste s), [LeerBarrera v]).

(** [Barrera.get_estado] *)
Definition get_estado (s : Estado) : string * Estado * list evento :=
  let '(s1, ev) := sensar s in
  ((if estado s1 then "Sensando" else "En espera")%string, s1, ev).

(** [Semaforo.regular_tiempo], up to the float it computes from [lectura]. *)
Definition regular_tiempo (s : Estado) : Z * Estado * list evento :=
  let '(lectura, r) := pop 0 (lecturas_ajuste s) in
  (lectura, mkEstado (salidas s) (estado s) (lecturas_barrera s) r, [LeerAjuste lectura]).

(** [Semaforo.leer_barrera]: [True], [False], or [None] when it falls off the
    end of the function (first reading not ['Sensando']). *)
Definition leer_barrera (s : Estado) : option bool * Estado * list evento :=
  let '(e1, s1, ev1) := get_estado s in
  if String.eqb e1 "Sensando" then
    let '(t, s2, ev2) := regular_tiempo s1 in
    let '(e2, s3, ev3) := get_estado s2 in
    (Some (if String.eqb e2 "Sensando" then true else false), s3,
     ev1 ++ ev2 ++ [DormirAjuste t] ++ ev3)
  else (None, s1, ev1).

(** Python truth value of what [leer_barrera] returns. *)
Definition verdadero (r : option bool) : bool :=
  match r with Some b => b | None => false end.

(** [pin.on()] / [pin.off()] *)
Definition escribir (o : salida) (v : bool) (s : Estado) : Estado * list evento :=
  (mkEstado (poner o v (salidas s)) (estado s) (lecturas_barrera s) (lecturas_ajuste s),
   [Escribir (pin_salida o) v]).

Definition luego (f g : Estado -> Estado * list evento) (s : Estado) : Estado * list evento :=
  let '(s1, e1) := f s in
  let '(s2, e2) := g s1 in
  (s2, e1 ++ e2).

Definition dormir (segundos : Z) (s : Estado) : Estado * list evento := (s, [Dormir segundos]).

Definition encender_luz_verde := escribir Verde true.
Definition apagar_luz_verde := escribir Verde false.
Definition encender_luz_roja := escribir Roja true.
Definition apagar_luz_roja := escribir Roja false.
Definition encender_buzzer := luego (escribir BuzzerD true) (escribir BuzzerI true).
Definition apagar_buzzer := luego (escribir BuzzerI false) (escribir BuzzerD false).

(** Body of the [while] loop of [control_luces] (lines 130-133). *)
Definition fase_roja : Estado -> Estado * list evento :=
  luego apagar_luz_verde (luego encender_luz_roja (luego encender_buzzer (dormir 5))).

(** Lines 134-136, after the loop. *)
Definition fin_control : Estado -> Estado * list evento :=
  luego apagar_luz_roja (luego apagar_buzzer encender_luz_verde).

(** [while self.leer_barrera(): ...], run for at most [fuel] tests;
    [None] if it has not left the loop by then. *)
Fixpoint bucle_luces (fuel : nat) (s : Estado) : option (Estado * list evento) :=
  match fuel with
  | O => None
  | S k =>
      let '(c, s1, e1) := leer_barrera s in
      if verdadero c then
        let '(s2, e2) := fase_roja s1 in
        match bucle_luces k s2 with
        | Some (s3, e3) => Some (s3, e1 ++ e2 ++ e3)
        | None => None
        end
      else Some (s1, e1)
  end.

(** [Semaforo.control_luces].  Every test of the loop consumes a barrier
    reading and an exhausted input reads low, so one test more than there are
    readings is enough for the loop to end. *)
Definition control_luces (s : Estado) : option (Estado * list evento) :=
  match bucle_luces (S (List.length (lecturas_barrera s))) s with
  | Some (s1, e1) => let '(s2, e2) := fin_control s1 in Some (s2, e1 ++ e2)
  | None => None
  end.

(** [n] iterations of the loop of [main]: [while True: s1.control_luces()]. *)
Fixpoint main_luces (n : nat) (s : Estado) : option (Estado * list evento) :=
  match n with
  | O => Some (s, [])
  | S k =>
      match control_luces s with
      | Some (s1, e1) =>
          match main_luces k s1 with
          | Some (s2, e2) => Some (s2, e1 ++ e2)
          | None => None
          end
      | None => None
      end
  end.

(** Level of output [pin] after the writes of [ev], [v0] before them. *)
Definition nivel (pin : Z) (v0 : bool) (ev : list evento) : bool :=
  fold_left (fun v e => match e with Escribir p b => if p =? pin then b else v | _ => v end) ev v0.

(** Green (18) and red (17) are never both on, at any point of [ev]. *)
Fixpoint segura (v r : bool) (ev : list evento) : bool :=
  negb (v && r) &&
  match ev with
  | [] => true
  | e :: t => segura (nivel 18 v [e]) (nivel 17 r [e]) t
  end.

(** An output write. *)
Definition escritura (e : evento) : Prop :=
  match e with Escribir _ _ => True | _ => False end.

(** Number of times the red light is switched on. *)
Definition rojas (ev : list evento) : nat :=
  List.length (List.filter (fun e => match e with Escribir p v => (p =? 17) && v | _ => false end) ev).

(** Number of leading pairs of high readings. *)
Fixpoint pares_altos (l : list bool) : nat :=
  match l with
  | true :: true :: r => S (pares_altos r)
  | _ => O
  end.

End Semaforos.

(** * ObtenerHoraWifi.py: time switch on NTP time

    [activar_salida] and the loop of the script's main block. *)

Module HoraWifi.

(** [utime.localtime()]: (year, month, mday, hour, minute, second, weekday,
    yearday). *)
Record Tiempo : Type := mkTiempo {
  anio : Z; mes : Z; dia : Z; hora : Z; minuto : Z; segundo : Z;
  dia_semana : Z; dia_anio : Z
}.

(** What [ntptime.settime()] does: set the clock ([utime.localtime()] then
    returns [t]), raise [OverflowError], or raise another exception (a socket
    error, for instance). *)
Inductive resultado_settime : Type :=
| SettimeOk (t : Tiempo)
| SettimeOverflow
| SettimeError.

(** [TypeError]: [hora[3]] on [None]. *)
Inductive excepcion : Type := TypeError | ErrorSettime.

Inductive evento : Type :=
| Settime
| Localtime
| LeerManual (v : bool)     (* ent_manual.value(), Pin 22 *)
| Salida (v : bool)         (* salida.on() / salida.off(), Pin 20 *)
| Dormir (segundos : Z).

(** The level of [salida] and the successive readings of [ent_manual] (an
    exhausted list reads low: [PULL_DOWN]). *)
Record Estado : Type := mkEstado {
  salida : bool;
  lecturas_manual : list bool
}.

(** [obtener_hora()]: a time, [None], or an exception it lets through. *)
Definition obtener_hora (r : resultado_settime) : (option Tiempo + excepcion) * list evento :=
  match r with
  | SettimeOk t => (inl (Some t), [Settime; Localtime])
  | SettimeOverflow => (inl None, [Settime])
  | SettimeError => (inr ErrorSettime, [Settime])
  end.

(** [activar_salida()]: [Some e] when it raises [e]. *)
Definition activar_salida (r : resultado_settime) (s : Estado)
    : option excepcion * Estado * list evento :=
  match obtener_hora r with
  | (inr e, ev) => (Some e, s, ev)
  | (inl None, ev) => (Some TypeError, s, ev)
  | (inl (Some t), ev) =>
      if ((0 <=? hora t - 3) && (hora t - 3 <? 7)) ||
         ((19 <=? hora t - 3) && (hora t - 3 <=? 23)) then
        (None, mkEstado true (lecturas_manual s), ev ++ [Salida true])
      else
        let '(m, rest) := pop false (lecturas_manual s) in
        if m then (None, mkEstado true rest, ev ++ [LeerManual m; Salida true])
        else (None, mkEstado false rest, ev ++ [LeerManual m; Salida false])
  end.

(** One iteration of [while True: try: activar_salida(); utime.sleep(10)
    except: continue]. *)
Definition iteracion (r : resultado_settime) (s : Estado) : Estado * list evento :=
  match activar_salida r s with
  | (None, s', ev) => (s', ev ++ [Dormir 10])
  | (Some _, s', ev) => (s', ev)
  end.

(** Iterations of the loop, one per [settime] outcome. *)
Fixpoint bucle (rs : list resultado_settime) (s : Estado) : Estado * list evento :=
  match rs with
  | [] => (s, [])
  | r :: rs' =>
      let '(s1, e1) := iteracion r s in
      let '(s2, e2) := bucle rs' s1 in
      (s2, e1 ++ e2)
  end.

Definition fallido (r : resultado_settime) : Prop :=
  match r with SettimeOk _ => False | _ => True end.

End HoraWifi.

(** * Properties *)

(** ** The maximum of a sampling window *)

Lemma fold_max_in (r : list Z) : forall x, In (fold_left Z.max r x) (x :: r).
Proof.
  induction r as [|a r IH]; intros x; simpl; [now left|].
  destruct (IH (Z.max x a)) as [H|H].
  - rewrite <- H. destruct (Z.max_spec x a) as [[_ E]|[_ E]]; rewrite E; intuition.
  - tauto.
Qed.

Lemma fold_max_ge (r : list Z) : forall x y, In y (x :: r) -> y <= fold_left Z.max r x.
Proof.
  induction r as [|a r IH]; intros x y Hy; simpl in *.
  - destruct Hy as [->|[]]; lia.
  - destruct Hy as [->|[->|Hy]].
    + transitivity (Z.max y a); [lia|]. apply IH; now left.
    + transitivity (Z.max x y); [lia|]. apply IH; now left.
    + apply IH; now right.
Qed.

Lemma max_lista_spec (l : list Z) :
  l <> [] -> In (max_lista l) l /\ (forall x, In x l -> x <= max_lista l).
Proof.
  destruct l as [|x r]; [congruence|]. intros _. simpl.
  split; [apply fold_max_in | intros y Hy; now apply fold_max_ge].
Qed.

Lemma muestras_cabeza (w : nat -> Z) : muestras w = w 0%nat :: map w (seq 1 999).
Proof. reflexivity. Qed.

(** Scenario of the spec: samples 10, 11, 12, 13.1, 12 (then 12 for the rest
    of the window) against the 13 A threshold of [b1]. *)
Example medir_corriente_escenario :
  let b := nueva_bomba 1 [] 130 22 6 in
  let w := fun i => nth i [100; 110; 120; 131; 120] 120 in
  let b' := fst (medir_corriente w b) in
  estado_falla b' = true /\ estado_bomba b' = false /\ corriente b' = 0.
Proof. vm_compute. auto. Qed.

(** C1: [medir_corriente] takes the maximum [m] of its window of samples; when
    [m >= corriente_falla] the pump ends faulted and stopped, whatever its state
    before, with [corriente] (and every other reading) unchanged; otherwise [m]
    is stored in [corriente] and neither [estado_falla] nor [estado_bomba]
    changes. *)
Theorem medir_corriente_maximo (w : nat -> Z) (b : Bomba) :
  let lista := muestras w in
  let b' := fst (medir_corriente w b) in
  exists m, In m lista /\ (forall x, In x lista -> x <= m) /\
    (if m >=? corriente_falla b then
       estado_falla b' = true /\ estado_bomba b' = false /\
       corriente b' = corriente b /\ temperatura b' = temperatura b
     else
       corriente b' = m /\ estado_falla b' = estado_falla b /\
       estado_bomba b' = estado_bomba b).
Proof.
  intros lista b'. exists (max_lista lista).
  assert (Hne : lista <> []) by (unfold lista; rewrite muestras_cabeza; discriminate).
  destruct (max_lista_spec lista Hne) as [Hin Hge].
  split; [exact Hin|]. split; [exact Hge|].
  unfold b', medir_corriente. fold lista.
  generalize (max_lista lista). intros m.
  destruct (m >=? corriente_falla b); simpl; auto.
Qed.

(** ** [marcha] has no guard *)

Lemma marcha_sin_guarda :
  let b := set_estado_falla true (nueva_bomba 1 [] 130 22 6) in
  estado_falla b = true /\
  estado_bomba (fst (marcha b)) = true /\ snd (marcha b) = [Rele 22 true].
Proof. simpl. auto. Qed.

(** ** Bus errors in [medir_temperatura] *)

Lemma medir_temperatura_reset_contraejemplo :
  let b := nueva_bomba 1 [] 130 22 6 in
  snd (medir_temperatura FalloLectura b)
  = [ConvertirTemp 6; Dormir 1000; LeerTemp 6; ResetBus 6].
Proof. reflexivity. Qed.

(** C8 (as the code has it): when [convert_temp] or [read_temp] raises, the
    [try] body stops there, the bare [except] catches the error and only
    resets the one-wire bus ([ow.reset()]); the call returns normally and the
    pump is left exactly as it was: no fault, [estado_falla] and [temperatura]
    unchanged. *)
Theorem medir_temperatura_error_bus (b : Bomba) :
  cuerpo_try_temperatura FalloConversion b = inl (b, [ConvertirTemp (pin_sensor b)]) /\
  medir_temperatura FalloConversion b
    = (b, [ConvertirTemp (pin_sensor b); ResetBus (pin_sensor b)]) /\
  cuerpo_try_temperatura FalloLectura b
    = inl (b, [ConvertirTemp (pin_sensor b); Dormir 1000; LeerTemp (pin_sensor b)]) /\
  medir_temperatura FalloLectura b
    = (b, [ConvertirTemp (pin_sensor b); Dormir 1000; LeerTemp (pin_sensor b);
           ResetBus (pin_sensor b)]).
Proof. repeat split. Qed.

(** ** Width of the displayed lines *)

Lemma display_linea_larga :
  let s := estado_modulo (mkHw [] [] [] [] []) in
  snd (alarma linea_servivcio s)
  = [Lcd (center 16 (de_ascii "Falla en")) (center 16 (de_ascii "ambas bombas"));
     Dormir 5000;
     Lcd (center 16 (de_ascii "Llamar al")) linea_servivcio;
     Dormir 5000] /\
  List.length linea_servivcio = 17%nat.
Proof. split; reflexivity. Qed.

Lemma length_repeat_espacio (n : nat) : List.length (repeat espacio n) = n.
Proof. apply repeat_length. Qed.

(** C9 (as the code has it): [display] pads each line with [str.center(16)]:
    a line of at most 16 characters becomes exactly 16 characters, centred;
    a longer line is written unchanged, not truncated.  So a rendered line
    has [max(16, len(line))] characters. *)
Theorem display_center_16 :
  (forall t, List.length (center 16 t) = Nat.max 16 (List.length t)) /\
  (forall t, (16 <= List.length t)%nat -> center 16 t = t) /\
  (forall t, (List.length t <= 16)%nat ->
     center 16 t = repeat espacio (Nat.div2 (16 - List.length t)) ++ t
                   ++ repeat espacio (16 - List.length t - Nat.div2 (16 - List.length t))) /\
  (forall l1 l2 s, display l1 l2 s = (tt, s, [Lcd (center 16 l1) (center 16 l2)])).
Proof.
  assert (Hland : forall m, (if Nat.odd m && Nat.odd 16 then 1%nat else 0%nat) = 0%nat)
    by (intros m; now rewrite andb_false_r).
  split; [|split; [|split]].
  - intros t. unfold center. destruct (Nat.leb 16 (List.length t)) eqn:E.
    + apply Nat.leb_le in E. lia.
    + apply Nat.leb_gt in E. rewrite Hland, Nat.add_0_r.
      rewrite !length_app, !length_repeat_espacio.
      pose proof (Nat.div2_decr (16 - List.length t) (16 - List.length t) (Nat.le_succ_diag_r _)). lia.
  - intros t H. unfold center. apply Nat.leb_le in H. now rewrite H.
  - intros t H. unfold center. rewrite Hland, Nat.add_0_r.
    destruct (Nat.leb 16 (List.length t)) eqn:E; [|reflexivity].
    apply Nat.leb_le in E. replace (16 - List.length t)%nat with 0%nat by lia.
    simpl. now rewrite app_nil_r.
  - reflexivity.
Qed.

(** ** Float edges and automatic mode *)

Lemma verificar_flotante_eq (s : Sistema) :
  let v := fst (pop false (hw_flotante (hw s))) in
  let '(r, s', ev) := verificar_flotante s in
  r = v /\ flotante_previo s' = v /\
  ciclo s' = ciclo s + (if v && negb (flotante_previo s) then 1 else 0) /\
  b1 s' = b1 s /\ b2 s' = b2 s /\
  hw s' = mkHw (hw_manual (hw s)) (hw_bomba1 (hw s)) (snd (pop false (hw_flotante (hw s))))
               (hw_adc (hw s)) (hw_ds18 (hw s)) /\
  ev = [LeerPin 11].
Proof.
  destruct s as [x y c p [m se fl ad ds]]; cbn.
  destruct fl as [|v fl]; [|destruct v]; destruct p; cbn; repeat split; lia.
Qed.

Lemma con_flotante_id (s : Sistema) : con_flotante (hw_flotante (hw s)) s = s.
Proof. destruct s as [x y c p [m se fl ad ds]]; reflexivity. Qed.

Lemma con_flotante_con_flotante (l l' : list bool) (s : Sistema) :
  con_flotante l (con_flotante l' s) = con_flotante l s.
Proof. reflexivity. Qed.

Lemma repetir_flotante (vs : list bool) : forall rest s,
  let '(rs, s', _) := repetir (List.length vs) verificar_flotante (con_flotante (vs ++ rest) s) in
  rs = vs /\ ciclo s' = ciclo s + flancos (flotante_previo s) vs /\
  flotante_previo s' = ultimo (flotante_previo s) vs /\ b1 s' = b1 s /\ b2 s' = b2 s.
Proof.
  induction vs as [|v vs IH]; intros rest s.
  - cbn. repeat split. lia.
  - cbn [List.length repetir bind].
    pose proof (verificar_flotante_eq (con_flotante ((v :: vs) ++ rest) s)) as H.
    destruct (verificar_flotante (con_flotante ((v :: vs) ++ rest) s)) as [[r s1] e1].
    cbn in H. destruct H as (-> & Hp & Hc & H1 & H2 & Hh & _).
    assert (Hs1 : s1 = con_flotante (vs ++ rest) s1)
      by (rewrite <- (con_flotante_id s1) at 1; unfold con_flotante; now rewrite Hh).
    specialize (IH rest s1). rewrite <- Hs1 in IH. cbn [fst snd bind ret].
    destruct (repetir (List.length vs) verificar_flotante s1) as [[rs s2] e2].
    cbn. destruct IH as (-> & Hc2 & Hp2 & H12 & H22).
    rewrite Hp in Hc2, Hp2. repeat split.
    + rewrite Hc2, Hc. cbn. lia.
    + exact Hp2.
    + congruence.
    + congruence.
Qed.

(** C4: each call of [verificar_flotante] returns the level read, stores it in
    [flotante_previo] and adds 1 to [ciclo] exactly when the level is high and
    the remembered one low (no change on a sustained high or low level); over
    any sequence of polls [ciclo] grows by the number of low-to-high
    transitions and [flotante_previo] ends at the last level. *)
Theorem verificar_flotante_cuenta_flancos (s : Sistema) :
  (let v := fst (pop false (hw_flotante (hw s))) in
   let '(r, s', _) := verificar_flotante s in
   r = v /\ flotante_previo s' = v /\
   ciclo s' = ciclo s + (if v && negb (flotante_previo s) then 1 else 0)) /\
  (forall vs rest,
   let '(rs, s', _) := repetir (List.length vs) verificar_flotante (con_flotante (vs ++ rest) s) in
   rs = vs /\ ciclo s' = ciclo s + flancos (flotante_previo s) vs /\
   flotante_previo s' = ultimo (flotante_previo s) vs).
Proof.
  split.
  - pose proof (verificar_flotante_eq s) as H. cbn zeta in *.
    destruct (verificar_flotante s) as [[r s'] e]. tauto.
  - intros vs rest. pose proof (repetir_flotante vs rest s) as H.
    destruct (repetir (List.length vs) verificar_flotante (con_flotante (vs ++ rest) s))
      as [[rs s'] e]. tauto.
Qed.

Lemma marcha_auto_manual (s : Sistema) (ms : list bool) :
  hw_manual (hw s) = true :: ms ->
  marcha_auto s
  = (false, set_hw (mkHw ms (hw_bomba1 (hw s)) (hw_flotante (hw s)) (hw_adc (hw s))
                          (hw_ds18 (hw s))) s, [LeerPin 12]).
Proof.
  destruct s as [x y c p [m se fl ad ds]]; cbn. intros ->. reflexivity.
Qed.

Lemma marcha_auto_auto (s : Sistema) (v : bool) (ms fs : list bool) :
  hw_manual (hw s) = false :: ms -> hw_flotante (hw s) = v :: fs ->
  let '(r, s', ev) := marcha_auto s in
  r = true /\
  ciclo s' = ciclo s + (if v && negb (flotante_previo s) then 1 else 0) /\
  flotante_previo s' = v /\
  hw s' = mkHw ms (hw_bomba1 (hw s)) fs (hw_adc (hw s)) (hw_ds18 (hw s)) /\
  (if v then
     if ciclo s' mod 2 =? 0 then
       b1 s' = set_estado_bomba true (b1 s) /\ b2 s' = set_estado_bomba false (b2 s) /\
       ev = [LeerPin 12; LeerPin 11; Rele (rele (b2 s)) false; Dormir 1000;
             Rele (rele (b1 s)) true;
             Lcd (center 16 (de_ascii "Modo: Auto")) (center 16 (de_ascii "Bomba 1: ON"))]
     else
       b1 s' = set_estado_bomba false (b1 s) /\ b2 s' = set_estado_bomba true (b2 s) /\
       ev = [LeerPin 12; LeerPin 11; Rele (rele (b1 s)) false; Dormir 1000;
             Rele (rele (b2 s)) true;
             Lcd (center 16 (de_ascii "Modo: Auto")) (center 16 (de_ascii "Bomba 2: ON"))]
   else
     b1 s' = set_estado_bomba false (b1 s) /\ b2 s' = set_estado_bomba false (b2 s) /\
     ev = [LeerPin 12; LeerPin 11; Rele (rele (b1 s)) false; Rele (rele (b2 s)) false;
           Lcd (center 16 (de_ascii "Esperando...")) (center 16 [])]).
Proof.
  destruct s as [x y c p [m se fl ad ds]]; cbn. intros -> ->.
  destruct v, p; cbn;
    [ destruct (c mod 2 =? 0) eqn:E | destruct ((c + 1) mod 2 =? 0) eqn:E | | ];
    cbn; rewrite ?E; cbn; repeat split; lia.
Qed.

(** C5: with the manual switch off, [marcha_auto] returns [True]; with the
    float active it stops the pump not selected, sleeps 1 s, starts pump 1
    when [ciclo] (as updated by [verificar_flotante]) is even and pump 2 when
    it is odd, and shows it; with the float inactive it stops both pumps and
    shows ['Esperando...'].  With the manual switch on it returns [False] and
    leaves both pumps (and [ciclo], [flotante_previo]) as they were. *)
Theorem marcha_auto_tick (s : Sistema) (m v : bool) (ms fs : list bool)
    (Hm : hw_manual (hw s) = m :: ms) (Hf : hw_flotante (hw s) = v :: fs) :
  let '(r, s', ev) := marcha_auto s in
  if m then
    r = false /\ b1 s' = b1 s /\ b2 s' = b2 s /\ ciclo s' = ciclo s /\
    flotante_previo s' = flotante_previo s /\ ev = [LeerPin 12]
  else
    r = true /\
    ciclo s' = ciclo s + (if v && negb (flotante_previo s) then 1 else 0) /\
    (if v then
       if ciclo s' mod 2 =? 0 then
         b1 s' = set_estado_bomba true (b1 s) /\ b2 s' = set_estado_bomba false (b2 s) /\
         ev = [LeerPin 12; LeerPin 11; Rele (rele (b2 s)) false; Dormir 1000;
               Rele (rele (b1 s)) true;
               Lcd (center 16 (de_ascii "Modo: Auto")) (center 16 (de_ascii "Bomba 1: ON"))]
       else
         b1 s' = set_estado_bomba false (b1 s) /\ b2 s' = set_estado_bomba true (b2 s) /\
         ev = [LeerPin 12; LeerPin 11; Rele (rele (b1 s)) false; Dormir 1000;
               Rele (rele (b2 s)) true;
               Lcd (center 16 (de_ascii "Modo: Auto")) (center 16 (de_ascii "Bomba 2: ON"))]
     else
       b1 s' = set_estado_bomba false (b1 s) /\ b2 s' = set_estado_bomba false (b2 s) /\
       ev = [LeerPin 12; LeerPin 11; Rele (rele (b1 s)) false; Rele (rele (b2 s)) false;
             Lcd (center 16 (de_ascii "Esperando...")) (center 16 [])]).
Proof.
  destruct m.
  - rewrite (marcha_auto_manual s ms Hm). destruct s; cbn. tauto.
  - pose proof (marcha_auto_auto s v ms fs Hm Hf) as H.
    destruct (marcha_auto s) as [[r s'] ev]. tauto.
Qed.

Lemma marcha_auto_witness :
  let s := estado_modulo (mkHw [false] [] [true] [] []) in
  hw_manual (hw s) = [false] /\ hw_flotante (hw s) = [true] /\
  (let '(r, s', ev) := marcha_auto s in
   if false then
     r = false /\ b1 s' = b1 s /\ b2 s' = b2 s /\ ciclo s' = ciclo s /\
     flotante_previo s' = flotante_previo s /\ ev = [LeerPin 12]
   else
     r = true /\
     ciclo s' = ciclo s + (if true && negb (flotante_previo s) then 1 else 0) /\
     (if true then
        if ciclo s' mod 2 =? 0 then
          b1 s' = set_estado_bomba true (b1 s) /\ b2 s' = set_estado_bomba false (b2 s) /\
          ev = [LeerPin 12; LeerPin 11; Rele (rele (b2 s)) false; Dormir 1000;
                Rele (rele (b1 s)) true;
                Lcd (center 16 (de_ascii "Modo: Auto")) (center 16 (de_ascii "Bomba 1: ON"))]
        else
          b1 s' = set_estado_bomba false (b1 s) /\ b2 s' = set_estado_bomba true (b2 s) /\
          ev = [LeerPin 12; LeerPin 11; Rele (rele (b1 s)) false; Dormir 1000;
                Rele (rele (b2 s)) true;
                Lcd (center 16 (de_ascii "Modo: Auto")) (center 16 (de_ascii "Bomba 2: ON"))]
      else
        b1 s' = set_estado_bomba false (b1 s) /\ b2 s' = set_estado_bomba false (b2 s) /\
        ev = [LeerPin 12; LeerPin 11; Rele (rele (b1 s)) false; Rele (rele (b2 s)) false;
              Lcd (center 16 (de_ascii "Esperando...")) (center 16 [])])).
Proof.
  split; [reflexivity|]. split; [reflexivity|].
  exact (marcha_auto_tick (estado_modulo (mkHw [false] [] [true] [] [])) false true [] []
           eq_refl eq_refl).
Defined.

(** ** The spec's float scenario *)

Lemma flotante_escenario_contraejemplo :
  let s0 := estado_modulo (mkHw [false; false; false; false] []
                                [false; true; false; true] [] []) in
  let '(_, s1, _) := marcha_auto s0 in
  let '(_, s2, _) := marcha_auto s1 in
  let '(_, s3, _) := marcha_auto s2 in
  let '(_, s4, _) := marcha_auto s3 in
  ciclo s4 = 2 /\
  estado_bomba (b2 s2) = true /\ estado_bomba (b1 s2) = false /\
  estado_bomba (b1 s4) = true /\ estado_bomba (b2 s4) = false.
Proof. vm_compute. repeat split. Qed.

(** C6 (as the code has it): from [ciclo = 0] and [flotante_previo = False],
    automatic ticks reading the float low, high, low, high leave [ciclo = 2];
    the first activation ([ciclo = 1], odd) starts pump 2, the second
    ([ciclo = 2], even) starts pump 1: the two activations select different
    pumps. *)
Theorem flotante_dos_flancos (x y : Bomba) (sel : list bool) (adc : list (nat -> Z))
    (ds : list lectura_temp) (ms fs : list bool) :
  let s0 := mkSistema x y 0 false
              (mkHw (false :: false :: false :: false :: ms) sel
                    (false :: true :: false :: true :: fs) adc ds) in
  let '(_, s1, _) := marcha_auto s0 in
  let '(_, s2, ev2) := marcha_auto s1 in
  let '(_, s3, _) := marcha_auto s2 in
  let '(_, s4, ev4) := marcha_auto s3 in
  ciclo s2 = 1 /\ ciclo s4 = 2 /\
  estado_bomba (b2 s2) = true /\ estado_bomba (b1 s2) = false /\
  In (Rele (rele y) true) ev2 /\
  estado_bomba (b1 s4) = true /\ estado_bomba (b2 s4) = false /\
  In (Rele (rele x) true) ev4.
Proof. vm_compute. repeat split; tauto. Qed.

(** ** The first automatic activation *)

(** Ticks of [marcha_auto] before the first activation: [true] for a tick
    with the manual switch on, [false] for an automatic tick with the float
    low (one float reading each). *)
Lemma marcha_auto_sin_activacion (l : list bool) : forall s ms fs,
  ciclo s = 0 -> flotante_previo s = false ->
  hw_manual (hw s) = l ++ ms ->
  hw_flotante (hw s) = repeat false (List.length (filter negb l)) ++ fs ->
  let '(_, s1, _) := repetir (List.length l) marcha_auto s in
  ciclo s1 = 0 /\ flotante_previo s1 = false /\
  hw_manual (hw s1) = ms /\ hw_flotante (hw s1) = fs /\
  rele (b1 s1) = rele (b1 s) /\ rele (b2 s1) = rele (b2 s).
Proof.
  induction l as [|a l IH]; intros s ms fs Hc Hp Hm Hf.
  - cbn in *. repeat split; auto.
  - cbn [List.length repetir bind ret fst snd].
    destruct a.
    + rewrite (marcha_auto_manual s (l ++ ms) Hm). cbn [fst snd].
      specialize (IH (set_hw (mkHw (l ++ ms) (hw_bomba1 (hw s)) (hw_flotante (hw s))
                                   (hw_adc (hw s)) (hw_ds18 (hw s))) s) ms fs).
      destruct (repetir (List.length l) marcha_auto _) as [[r s1] e1].
      destruct s as [x y c p h]; cbn in *. apply IH; auto.
    + pose proof (marcha_auto_auto s false (l ++ ms)
                    (repeat false (List.length (filter negb l)) ++ fs) Hm Hf) as H.
      destruct (marcha_auto s) as [[r s'] e]. cbn [fst snd].
      destruct H as (_ & Hc' & Hp' & Hh & H1 & H2 & _).
      rewrite Hc, Hp in Hc'. cbn in Hc'.
      specialize (IH s' ms fs Hc' Hp' ltac:(now rewrite Hh) ltac:(now rewrite Hh)).
      cbn [bind ret fst snd].
      destruct (repetir (List.length l) marcha_auto s') as [[r1 s1] e1].
      destruct IH as (? & ? & ? & ? & R1 & R2).
      cbn [fst snd]. rewrite R1, R2, H1, H2. cbn. repeat split; auto.
Qed.

(** C10: from [ciclo = 0] and [flotante_previo = False], after any ticks of
    [marcha_auto] that do not activate a pump (manual switch on, or float
    low), the first automatic tick that reads the float high increments
    [ciclo] to 1 before the parity test and so starts pump 2, not pump 1. *)
Theorem primera_activacion_bomba2 (l : list bool) (x y : Bomba) (sel : list bool)
    (adc : list (nat -> Z)) (ds : list lectura_temp) (ms fs : list bool) :
  let s0 := mkSistema x y 0 false
              (mkHw (l ++ false :: ms) sel
                    (repeat false (List.length (filter negb l)) ++ true :: fs) adc ds) in
  let '(_, s1, _) := repetir (List.length l) marcha_auto s0 in
  let '(r, s2, ev) := marcha_auto s1 in
  r = true /\ ciclo s2 = 1 /\
  estado_bomba (b1 s2) = false /\ estado_bomba (b2 s2) = true /\
  ev = [LeerPin 12; LeerPin 11; Rele (rele x) false; Dormir 1000; Rele (rele y) true;
        Lcd (center 16 (de_ascii "Modo: Auto")) (center 16 (de_ascii "Bomba 2: ON"))].
Proof.
  intros s0.
  pose proof (marcha_auto_sin_activacion l s0 (false :: ms) (true :: fs)
                eq_refl eq_refl eq_refl eq_refl) as H.
  destruct (repetir (List.length l) marcha_auto s0) as [[r1 s1] e1].
  destruct H as (Hc & Hp & Hm & Hf & R1 & R2).
  pose proof (marcha_auto_auto s1 true ms fs Hm Hf) as H.
  destruct (marcha_auto s1) as [[r s2] ev].
  rewrite Hc, Hp in H. cbn in H.
  destruct H as (-> & -> & _ & _ & -> & -> & ->).
  cbn in R1, R2. rewrite R1, R2. auto.
Qed.

(** ** The fault latch over the control loop *)

Lemma evoluciona_trans (b b' b'' : Bomba) :
  evoluciona b b' -> evoluciona b' b'' -> evoluciona b b''.
Proof.
  intros [R1 [[F1 E1]|[F1 E1]]] [R2 [[F2 E2]|[F2 E2]]]; split; try congruence;
    [left|right|right|right]; split; congruence.
Qed.

Lemma ok_evoluciona (b b' : Bomba) : ok b -> evoluciona b b' -> ok b'.
Proof.
  intros Hok [_ [[F E]|[F E]]] Hf; [rewrite E; apply Hok; congruence | exact E].
Qed.

Lemma falla_evoluciona (b b' : Bomba) :
  estado_falla b = true -> evoluciona b b' -> estado_falla b' = true.
Proof. intros Hf [_ [[F E]|[F E]]]; congruence. Qed.

Lemma medir_corriente_evoluciona (w : nat -> Z) (b : Bomba) :
  evoluciona b (fst (medir_corriente w b)) /\
  Forall (fun e => enciende e = false) (snd (medir_corriente w b)).
Proof.
  unfold medir_corriente. generalize (max_lista (muestras w)). intros m.
  destruct (m >=? corriente_falla b); cbn; unfold evoluciona; cbn; auto.
Qed.

Lemma medir_temperatura_evoluciona (r : lectura_temp) (b : Bomba) :
  evoluciona b (fst (medir_temperatura r b)) /\
  Forall (fun e => enciende e = false) (snd (medir_temperatura r b)).
Proof.
  unfold medir_temperatura, cuerpo_try_temperatura, evoluciona.
  destruct r as [raw| |]; cbn; auto 10.
  destruct (Z.quot raw 16 >=? temp_falla b); cbn; auto 10.
Qed.

Lemma bomba_con_bomba (i : idb) (b : Bomba) (s : Sistema) : bomba i (con_bomba i b s) = b.
Proof. destruct i; reflexivity. Qed.

Lemma bomba_otra_con_bomba (i : idb) (b : Bomba) (s : Sistema) :
  bomba (otra i) (con_bomba i b s) = bomba (otra i) s.
Proof. destruct i; reflexivity. Qed.

Lemma bomba_set_hw (i : idb) (h : Hw) (s : Sistema) : bomba i (set_hw h s) = bomba i s.
Proof. destruct i; reflexivity. Qed.

Lemma leer_adc_forma (s : Sistema) : exists w h, leer_adc s = (w, set_hw h s, []).
Proof. unfold leer_adc. destruct (pop _ _). eexists _, _. reflexivity. Qed.

Lemma leer_ds18_forma (s : Sistema) : exists r h, leer_ds18 s = (r, set_hw h s, []).
Proof. unfold leer_ds18. destruct (pop _ _). eexists _, _. reflexivity. Qed.

Lemma metodo_evol (i : idb) (f : Bomba -> Bomba * list evento) (s : Sistema) :
  (forall b, evoluciona b (fst (f b)) /\ Forall (fun e => enciende e = false) (snd (f b))) ->
  evol i s (st (metodo i f s)) /\ Forall (fun e => enciende e = false) (snd (metodo i f s)).
Proof.
  intros Hf. unfold metodo, st, evol. cbn [fst snd].
  destruct (Hf (bomba i s)) as [H1 H2].
  rewrite bomba_otra_con_bomba, bomba_con_bomba. auto.
Qed.

Lemma leer_luego_evol {A} (lee : M A) (g : A -> M unit) (i : idb) (s : Sistema) :
  (forall s, exists a h, lee s = (a, set_hw h s, [])) ->
  (forall a s, evol i s (st (g a s)) /\ Forall (fun e => enciende e = false) (snd (g a s))) ->
  evol i s (st (bind lee g s)) /\
  Forall (fun e => enciende e = false) (snd (bind lee g s)).
Proof.
  intros Hl Hg. destruct (Hl s) as (a & h & E).
  unfold bind, st. rewrite E. cbn [fst snd app].
  destruct (Hg a (set_hw h s)) as [[H1 H2] H3]. unfold st in H1, H2.
  rewrite !bomba_set_hw in H1, H2. split; [split|]; auto.
Qed.

Lemma medir_corriente_b_evol (i : idb) (s : Sistema) :
  evol i s (st (medir_corriente_b i s)) /\
  Forall (fun e => enciende e = false) (snd (medir_corriente_b i s)).
Proof.
  apply leer_luego_evol; [exact leer_adc_forma|].
  intros w s'. apply metodo_evol. apply medir_corriente_evoluciona.
Qed.

Lemma medir_temperatura_b_evol (i : idb) (s : Sistema) :
  evol i s (st (medir_temperatura_b i s)) /\
  Forall (fun e => enciende e = false) (snd (medir_temperatura_b i s)).
Proof.
  apply leer_luego_evol; [exact leer_ds18_forma|].
  intros r s'. apply metodo_evol. apply medir_temperatura_evoluciona.
Qed.

(** Inversion of the monad's combinators. *)
Lemma bind_inv {A B} (m : M A) (k : A -> M B) (s : Sistema) (b : B) (s' : Sistema)
    (ev : list evento) :
  bind m k s = (b, s', ev) ->
  exists a s1 e1 e2, m s = (a, s1, e1) /\ k a s1 = (b, s', e2) /\ ev = e1 ++ e2.
Proof.
  unfold bind. destruct (m s) as [[a s1] e1] eqn:Em. cbn [fst snd].
  destruct (k a s1) as [[b' s2] e2] eqn:Ek. cbn [fst snd].
  intros H. inversion H; subst. exists a, s1, e1, e2. auto.
Qed.

Ltac partir H Hm a s1 :=
  apply bind_inv in H; destruct H as (a & s1 & ? & ? & Hm & H & ->); cbv beta in H.

Lemma ret_inv {A} (a b : A) (s s' : Sistema) (ev : list evento) :
  ret a s = (b, s', ev) -> b = a /\ s' = s /\ ev = [].
Proof. intros H. inversion H. auto. Qed.

Lemma gets_inv {A} (f : Sistema -> A) (s : Sistema) (a : A) (s' : Sistema) (ev : list evento) :
  gets f s = (a, s', ev) -> a = f s /\ s' = s /\ ev = [].
Proof. intros H. inversion H. auto. Qed.

Lemma metodo_inv (i : idb) (f : Bomba -> Bomba * list evento) (s : Sistema) (u : unit)
    (s' : Sistema) (ev : list evento) :
  metodo i f s = (u, s', ev) -> s' = con_bomba i (fst (f (bomba i s))) s /\ ev = snd (f (bomba i s)).
Proof. intros H. inversion H. auto. Qed.

Lemma intacto_bind {A B} (m : M A) (k : A -> M B) :
  intacto m -> (forall a, intacto (k a)) -> intacto (bind m k).
Proof.
  intros Im Ik s b s' ev H. partir H H1 a s1.
  destruct (Im _ _ _ _ H1) as (E1 & E2 & F1).
  destruct (Ik _ _ _ _ _ H) as (E3 & E4 & F2).
  repeat split; try congruence. apply Forall_app; auto.
Qed.

Lemma intacto_ret {A} (a : A) : intacto (ret a).
Proof. intros s b s' ev H. inversion H; subst. auto. Qed.

Lemma intacto_gets {A} (f : Sistema -> A) : intacto (gets f).
Proof. intros s b s' ev H. inversion H; subst. auto. Qed.

Lemma intacto_emitir (l : list evento) :
  Forall (fun e => enciende e = false) l -> intacto (emitir l).
Proof. intros F s b s' ev H. inversion H; subst. auto. Qed.

Lemma intacto_modify (f : Sistema -> Sistema) :
  (forall s, b1 (f s) = b1 s /\ b2 (f s) = b2 s) -> intacto (modify f).
Proof. intros Hf s b s' ev H. inversion H; subst. destruct (Hf s). auto. Qed.

Lemma intacto_leer (e : entrada) : intacto (leer e).
Proof.
  intros s b s' ev H. unfold leer in H.
  destruct e; cbn in H; destruct (pop _ _); inversion H; subst; repeat constructor.
Qed.

Ltac intacto_tac :=
  repeat first
    [ apply intacto_bind; [|intro]
    | apply intacto_ret
    | apply intacto_gets
    | apply intacto_leer
    | apply intacto_emitir; repeat constructor
    | apply intacto_modify; intros; split; reflexivity
    | match goal with |- intacto (if ?b then _ else _) => destruct b end
    | progress cbv beta ].

Lemma intacto_verificar_flotante : intacto verificar_flotante.
Proof. unfold verificar_flotante. intacto_tac. Qed.

Lemma intacto_display (l1 l2 : texto) : intacto (display l1 l2).
Proof. unfold display. intacto_tac. Qed.

Lemma intacto_dormir (ms : Z) : intacto (dormir ms).
Proof. unfold dormir. intacto_tac. Qed.

Lemma intacto_mostrar_medicion (i : idb) : intacto (mostrar_medicion i).
Proof. unfold mostrar_medicion. intacto_tac. Qed.

Lemma intacto_alarma (t : texto) : intacto (alarma t).
Proof.
  unfold alarma. intacto_tac.
Qed.

Lemma conserva_bind {A B} (m : M A) (k : A -> M B) :
  conserva m -> (forall a, conserva (k a)) -> conserva (bind m k).
Proof.
  intros Cm Ck s b s' ev H i. partir H H1 a s1.
  destruct (Cm _ _ _ _ H1 i) as (E1 & E2).
  destruct (Ck _ _ _ _ _ H i) as (E3 & E4).
  split; congruence.
Qed.

Lemma intacto_conserva {A} (m : M A) : intacto m -> conserva m.
Proof.
  intros Im s a s' ev H i. destruct (Im _ _ _ _ H) as (E1 & E2 & _).
  destruct i; cbn; rewrite ?E1, ?E2; auto.
Qed.

Lemma conserva_metodo (j : idb) (f : Bomba -> Bomba * list evento) :
  (forall b, rele (fst (f b)) = rele b /\ estado_falla (fst (f b)) = estado_falla b) ->
  conserva (metodo j f).
Proof.
  intros Hf s a s' ev H i. apply metodo_inv in H as [-> _].
  destruct i, j; cbn; try apply Hf; split; reflexivity.
Qed.

Ltac conserva_tac :=
  repeat first
    [ apply conserva_bind; [|intro]
    | apply conserva_metodo; intros; split; reflexivity
    | apply intacto_conserva; solve [intacto_tac]
    | match goal with |- conserva (if ?b then _ else _) => destruct b end
    | progress cbv beta ].

Lemma conserva_marcha_manual : conserva marcha_manual.
Proof. unfold marcha_manual. conserva_tac. Qed.

Lemma conserva_marcha_auto : conserva marcha_auto.
Proof. unfold marcha_auto. conserva_tac. Qed.

Lemma bombas_iguales (s s' : Sistema) :
  b1 s' = b1 s -> b2 s' = b2 s -> forall i, bomba i s' = bomba i s.
Proof. intros E1 E2 i. destruct i; cbn; auto. Qed.

Lemma evoluciona_refl (b : Bomba) : evoluciona b b.
Proof. split; auto. Qed.

Lemma evol_refl (i : idb) (s : Sistema) : evol i s s.
Proof. split; [reflexivity | apply evoluciona_refl]. Qed.

Lemma evol_trans (i : idb) (s s1 s2 : Sistema) : evol i s s1 -> evol i s1 s2 -> evol i s s2.
Proof.
  intros [O1 E1] [O2 E2]. split; [congruence | eapply evoluciona_trans; eauto].
Qed.

Lemma evol_pines (i : idb) (s s' : Sistema) : evol i s s' -> pines s -> pines s'.
Proof.
  intros [O [R _]] Hp j. pose proof (Hp B1). pose proof (Hp B2).
  destruct i, j; cbn in *; congruence.
Qed.

Lemma solo_bind {A B} (i : idb) (Q : B -> Prop) (m : M A) (k : A -> M B) :
  solo i (fun _ => True) m -> (forall a, solo i Q (k a)) -> solo i Q (bind m k).
Proof.
  intros Sm Sk s b s' ev H. partir H H1 a s1.
  destruct (Sm _ _ _ _ H1) as (_ & V1 & F1).
  destruct (Sk _ _ _ _ _ H) as (Q2 & V2 & F2).
  split; [exact Q2 | split; [eapply evol_trans; eauto | apply Forall_app; auto]].
Qed.

Lemma solo_ret {A} (i : idb) (Q : A -> Prop) (a : A) : Q a -> solo i Q (ret a).
Proof. intros Qa s b s' ev H. inversion H; subst. split; [|split]; auto using evol_refl. Qed.

Lemma solo_intacto {A} (i : idb) (m : M A) : intacto m -> solo i (fun _ => True) m.
Proof.
  intros Im s a s' ev H. destruct (Im _ _ _ _ H) as (E1 & E2 & F).
  pose proof (bombas_iguales _ _ E1 E2) as B.
  split; [exact I | split; [|exact F]].
  split; [apply B | rewrite B; apply evoluciona_refl].
Qed.

Lemma medir_corriente_b_inv (i : idb) (s : Sistema) (u : unit) (s' : Sistema)
    (ev : list evento) :
  medir_corriente_b i s = (u, s', ev) ->
  evol i s s' /\ Forall (fun e => enciende e = false) ev.
Proof. intros H. pose proof (medir_corriente_b_evol i s) as X. rewrite H in X. exact X. Qed.

Lemma medir_temperatura_b_inv (i : idb) (s : Sistema) (u : unit) (s' : Sistema)
    (ev : list evento) :
  medir_temperatura_b i s = (u, s', ev) ->
  evol i s s' /\ Forall (fun e => enciende e = false) ev.
Proof. intros H. pose proof (medir_temperatura_b_evol i s) as X. rewrite H in X. exact X. Qed.

Lemma solo_medir_corriente (i : idb) : solo i (fun _ => True) (medir_corriente_b i).
Proof.
  intros s a s' ev H. apply medir_corriente_b_inv in H as [V F]. auto.
Qed.

Lemma solo_medir_temperatura (i : idb) : solo i (fun _ => True) (medir_temperatura_b i).
Proof.
  intros s a s' ev H. apply medir_temperatura_b_inv in H as [V F]. auto.
Qed.

Ltac solo_tac :=
  repeat first
    [ apply solo_medir_corriente
    | apply solo_medir_temperatura
    | apply solo_bind; [|intro]
    | apply solo_ret; reflexivity
    | apply solo_intacto; solve [intacto_tac]
    | match goal with |- solo _ _ (if ?b then _ else _) => destruct b end
    | progress cbv beta ].

Lemma inv_bombas (l : Lugar) (s s' : Sistema) :
  (forall i, bomba i s' = bomba i s) -> inv l s -> inv l s'.
Proof.
  intros B [P X]. split; [intros i; rewrite B; apply P|].
  destruct l; [intros i; rewrite B; apply X | rewrite !B; exact X | intros i; rewrite !B; apply X].
Qed.

Lemma otra_otra (i : idb) : otra (otra i) = i.
Proof. destruct i; reflexivity. Qed.

Lemma bomba_con_otra (i : idb) (b : Bomba) (s : Sistema) :
  bomba i (con_bomba (otra i) b s) = bomba i s.
Proof. destruct i; reflexivity. Qed.

Lemma idb_eq (j i : idb) : j = i \/ j = otra i.
Proof. destruct i, j; auto. Qed.

(** The measuring branch of [main] for a running pump [i]. *)
Lemma rama_medicion_spec (i : idb) (s : Sistema) (r : option Lugar) (s' : Sistema)
    (ev : list evento) :
  inv EnMain s -> rama_medicion i s = (r, s', ev) ->
  (r = None /\ inv EnMain s') \/ (r = Some (EnFalla i) /\ inv (EnFalla i) s').
Proof.
  intros [Hp Hs] H. unfold rama_medicion in H.
  partir H H1 u1 s1. apply medir_corriente_b_inv in H1 as [V1 _].
  partir H H2 u2 s2. apply medir_temperatura_b_inv in H2 as [V2 _].
  pose proof (evol_trans _ _ _ _ V1 V2) as V. clear V1 V2.
  pose proof (evol_pines _ _ _ V Hp) as Hp2.
  assert (Fo : estado_falla (bomba (otra i) s2) = false) by (rewrite (proj1 V); apply Hs).
  partir H H3 f s3. apply gets_inv in H3 as (-> & -> & ->).
  destruct (estado_falla (bomba i s2)) eqn:F; cbn [negb] in H.
  - right. unfold verificar_falla in H.
    partir H H4 f1 s4. apply gets_inv in H4 as (-> & -> & ->).
    partir H H5 f2 s5. apply gets_inv in H5 as (-> & -> & ->).
    destruct i; cbn [bomba otra] in F, Fo; rewrite F, Fo in H; cbn [andb] in H.
    + partir H H6 u6 s6. apply metodo_inv in H6 as [-> _].
      apply ret_inv in H as (-> & -> & _).
      split; [reflexivity|]. split; [intros [|]; apply (Hp2 B1) || apply (Hp2 B2)|].
      cbn. split; [exact F | split; [reflexivity | intros E; congruence]].
    + partir H H6 u6 s6. apply metodo_inv in H6 as [-> _].
      apply ret_inv in H as (-> & -> & _).
      split; [reflexivity|]. split; [intros [|]; apply (Hp2 B1) || apply (Hp2 B2)|].
      cbn. split; [exact F | split; [reflexivity | intros E; congruence]].
  - left. assert (S : solo i (fun r => r = None)
                         (dormir 2000 ;; mostrar_medicion i ;; dormir 2000 ;; ret (@None Lugar)))
      by solo_tac.
    assert (Im : intacto (dormir 2000 ;; mostrar_medicion i ;; dormir 2000 ;; ret (@None Lugar)))
      by intacto_tac.
    destruct (S _ _ _ _ H) as (-> & V' & _).
    destruct (Im _ _ _ _ H) as (E1 & E2 & _).
    pose proof (bombas_iguales _ _ E1 E2) as B.
    split; [reflexivity|]. split; [intros j; rewrite B; apply Hp2|].
    intros j. rewrite B. destruct (idb_eq j i) as [-> | ->]; auto.
Qed.

Lemma conserva_main (s s' : Sistema) :
  (forall i, rele (bomba i s') = rele (bomba i s) /\
             estado_falla (bomba i s') = estado_falla (bomba i s)) ->
  inv EnMain s -> inv EnMain s'.
Proof.
  intros C [P F]. split; intros i; destruct (C i) as [C1 C2];
    [rewrite C1; apply P | rewrite C2; apply F].
Qed.

(** One iteration of the loop of [main]. *)
Lemma iteracion_main_spec (s : Sistema) (r : option Lugar) (s' : Sistema) (ev : list evento) :
  inv EnMain s -> iteracion_main s = (r, s', ev) ->
  (r = None /\ inv EnMain s') \/ (exists i, r = Some (EnFalla i) /\ inv (EnFalla i) s').
Proof.
  intros I0 H. unfold iteracion_main in H.
  partir H H1 u1 s1. pose proof (conserva_main _ _ (conserva_marcha_manual _ _ _ _ H1) I0) as I1.
  partir H H2 u2 s2. pose proof (conserva_main _ _ (conserva_marcha_auto _ _ _ _ H2) I1) as I2.
  partir H H3 e1 s3. apply gets_inv in H3 as (-> & -> & ->).
  partir H H4 e2 s4. apply gets_inv in H4 as (-> & -> & ->).
  partir H H5 r5 s5.
  destruct (estado_bomba (b1 s2)).
  - apply (rama_medicion_spec _ _ _ _ _ I2) in H5 as [[-> I5]|[-> I5]].
    + destruct (estado_bomba (b2 s2)).
      * destruct (rama_medicion_spec _ _ _ _ _ I5 H) as [[-> I6]|[-> I6]]; eauto.
      * apply ret_inv in H as (-> & -> & _). auto.
    + apply ret_inv in H as (-> & -> & _). eauto.
  - apply ret_inv in H5 as (-> & -> & _).
    destruct (estado_bomba (b2 s2)).
    + destruct (rama_medicion_spec _ _ _ _ _ I2 H) as [[-> I5]|[-> I5]]; eauto.
    + apply ret_inv in H as (-> & -> & _). auto.
Qed.

Lemma no_enciende (p : Z) (ev : list evento) :
  Forall (fun e => enciende e = false) ev -> ~ In (Rele p true) ev.
Proof.
  intros F Hin. rewrite Forall_forall in F. specialize (F _ Hin). discriminate.
Qed.

Lemma respeta_trans (s s1 s2 : Sistema) (e1 e2 : list evento) :
  respeta s s1 e1 -> respeta s1 s2 e2 -> respeta s s2 (e1 ++ e2).
Proof.
  intros R1 R2 i F. destruct (R1 i F) as [F1 N1]. destruct (R2 i F1) as [F2 N2].
  split; [exact F2|]. rewrite in_app_iff. tauto.
Qed.

Lemma respeta_refl (s : Sistema) : respeta s s [].
Proof. intros i F. split; [exact F | intros []]. Qed.

Lemma pin_rele_otra (i : idb) : pin_rele (otra i) <> pin_rele i.
Proof. destruct i; cbn; discriminate. Qed.

(** One iteration of the single-fault loop for the faulted pump [c]. *)
Lemma cuerpo_falla_spec (c : idb) (s : Sistema) (l' : Lugar) (s' : Sistema) (ev : list evento) :
  inv (EnFalla c) s -> cuerpo_falla c s = (l', s', ev) ->
  inv l' s' /\ respeta s s' ev /\ (l' = EnFalla c \/ l' = EnAlarma linea_servicio).
Proof.
  intros I0 H. pose proof I0 as [Hp [Fc [Bc Ok]]]. unfold cuerpo_falla in H.
  partir H H1 f s1.
  destruct (intacto_verificar_flotante _ _ _ _ H1) as (E1 & E2 & F1).
  pose proof (bombas_iguales _ _ E1 E2) as B. clear E1 E2 H1.
  pose proof (inv_bombas _ _ _ B I0) as I1.
  destruct f.
  - partir H H2 fs s2. apply gets_inv in H2 as (-> & -> & ->).
    destruct (estado_falla (bomba (otra c) s1)) eqn:Fo; cbn [negb] in H.
    + apply ret_inv in H as (-> & -> & ->).
      split; [|split; [|right; reflexivity]].
      * split; [apply I1|]. destruct I1 as [_ [Fc1 [Bc1 Ok1]]].
        intros i. destruct (idb_eq i c) as [-> | ->]; auto.
      * intros i F. rewrite B. split; [exact F|].
        intros N. apply in_app_or in N as [N|N]; [revert N; now apply no_enciende | cbn in N; tauto].
    + partir H H3 u3 s3. apply metodo_inv in H3 as [-> ->].
      match type of H with ?m _ = _ =>
        assert (S : solo (otra c) (fun l => l = EnFalla c) m) by solo_tac end.
      destruct (S _ _ _ _ H) as (-> & [O V] & F3). clear S H.
      rewrite bomba_otra_con_bomba, otra_otra in O.
      rewrite bomba_con_bomba in V.
      destruct I1 as [Hp1 [Fc1 [Bc1 Ok1]]].
      split; [|split; [|left; reflexivity]].
      * split.
        -- intros j. destruct (idb_eq j c) as [-> | ->].
           ++ rewrite O. apply Hp1.
           ++ destruct V as [R _]. rewrite R. apply Hp1.
        -- rewrite O. split; [exact Fc1 | split; [exact Bc1|]].
           eapply ok_evoluciona; [|exact V]. unfold ok. cbn [marcha fst set_estado_bomba estado_falla]. intros G. congruence.
      * intros i F. rewrite <- B in F. destruct (idb_eq i c) as [-> | ->].
        -- split; [rewrite O; exact F|].
           rewrite !in_app_iff. cbn.
           intros [N|[[]|[[N|[]]|N]]]; [revert N; now apply no_enciende | | revert N; now apply no_enciende].
           injection N as N. rewrite (Hp1 (otra c)) in N. now apply (pin_rele_otra c).
        -- congruence.
  - partir H H2 u2 s2. apply metodo_inv in H2 as [-> ->].
    apply ret_inv in H as (-> & -> & ->).
    destruct I1 as [Hp1 [Fc1 [Bc1 Ok1]]].
    split; [|split; [|left; reflexivity]].
    + split.
      * intros j. destruct (idb_eq j c) as [-> | ->].
        -- rewrite bomba_con_otra. apply Hp1.
        -- rewrite bomba_con_bomba. apply Hp1.
      * rewrite !bomba_con_otra.
        split; [exact Fc1 | split; [exact Bc1|]].
        rewrite bomba_con_bomba. intros _. reflexivity.
    + intros i F. rewrite <- B in F. split.
      * destruct (idb_eq i c) as [-> | ->].
        -- rewrite bomba_con_otra. exact F.
        -- rewrite bomba_con_bomba. exact F.
      * rewrite !in_app_iff. cbn.
        intros [N|[[N|[]]|[]]]; [revert N; now apply no_enciende | discriminate].
Qed.

(** One iteration of any loop keeps [inv] and the faults already present. *)
Lemma paso_spec (l : Lugar) (s : Sistema) (l' : Lugar) (s' : Sistema) (ev : list evento) :
  inv l s -> paso l s = (l', s', ev) -> inv l' s' /\ respeta s s' ev.
Proof.
  intros I0 H. destruct l as [|c|t]; cbn [paso] in H.
  - partir H H1 r s1. apply ret_inv in H as (-> & -> & ->).
    split.
    + destruct (iteracion_main_spec _ _ _ _ I0 H1) as [[-> I1]|(i & -> & I1)]; exact I1.
    + intros i F. destruct I0 as [_ Hs]. rewrite Hs in F. discriminate.
  - destruct (cuerpo_falla_spec _ _ _ _ _ I0 H) as (I1 & R & _). auto.
  - partir H H1 u s1. apply ret_inv in H as (-> & -> & ->).
    destruct (intacto_alarma _ _ _ _ _ H1) as (E1 & E2 & F).
    pose proof (bombas_iguales _ _ E1 E2) as B.
    split; [exact (inv_bombas _ _ _ B I0)|].
    intros i F'. rewrite B. split; [exact F'|]. rewrite app_nil_r. now apply no_enciende.
Qed.

Lemma ejecutar_spec (n : nat) : forall l s l' s' ev,
  inv l s -> ejecutar n l s = (l', s', ev) -> inv l' s' /\ respeta s s' ev.
Proof.
  induction n as [|n IH]; intros l s l' s' ev I0 H; cbn [ejecutar] in H.
  - apply ret_inv in H as (-> & -> & ->). split; [exact I0 | apply respeta_refl].
  - partir H H1 l1 s1. destruct (paso_spec _ _ _ _ _ I0 H1) as [I1 R1].
    destruct (IH _ _ _ _ _ I1 H) as [I2 R2].
    split; [exact I2 | eapply respeta_trans; eauto].
Qed.

Lemma inv_ok (l : Lugar) (s : Sistema) : inv l s -> forall i, ok (bomba i s).
Proof.
  intros [_ X] i Fi. destruct l as [|c|t].
  - rewrite X in Fi. discriminate.
  - destruct X as (Fc & Bc & Ok). destruct (idb_eq i c) as [-> | ->]; auto.
  - apply X.
Qed.

Lemma inicio_inv (h : Hw) (s : Sistema) (ev : list evento) :
  inicio (estado_modulo h) = (tt, s, ev) -> inv EnMain s.
Proof. intros H. vm_compute in H. inversion H; subst. split; intros [|]; reflexivity. Qed.

Lemma alcanzable_inv (l : Lugar) (s : Sistema) : alcanzable l s -> inv l s.
Proof.
  induction 1 as [h s ev H|l s l' s' ev A IH H].
  - exact (inicio_inv _ _ _ H).
  - exact (proj1 (paso_spec _ _ _ _ _ IH H)).
Qed.

Lemma inv_set_hw (l : Lugar) (s : Sistema) (h : Hw) : inv l s -> inv l (set_hw h s).
Proof. apply inv_bombas. intros i. apply bomba_set_hw. Qed.

(** C2: in every reachable state of the control loop a faulted pump is
    stopped ([estado_falla = True] implies [estado_bomba = False]); and the
    fault is latched: from a reachable state, whatever inputs are read from
    then on, after any number of further loop iterations a pump that was
    faulted is still faulted and stopped, and no event of those iterations
    switched its relay on. *)
Theorem falla_enclavada (l : Lugar) (s : Sistema) :
  alcanzable l s ->
  (forall i, estado_falla (bomba i s) = true -> estado_bomba (bomba i s) = false) /\
  (forall (i : idb) (h : Hw) (n : nat), estado_falla (bomba i s) = true ->
     let '(_, s', ev) := ejecutar n l (set_hw h s) in
     estado_falla (bomba i s') = true /\ estado_bomba (bomba i s') = false /\
     ~ In (Rele (rele (bomba i s)) true) ev).
Proof.
  intros A. pose proof (alcanzable_inv _ _ A) as I0. split.
  - exact (inv_ok _ _ I0).
  - intros i h n F.
    destruct (ejecutar n l (set_hw h s)) as [[l' s'] ev] eqn:E.
    destruct (ejecutar_spec _ _ _ _ _ _ (inv_set_hw _ _ h I0) E) as [I2 R].
    rewrite <- (bomba_set_hw i h s) in F.
    destruct (R i F) as [F' N].
    split; [exact F' | split; [exact (inv_ok _ _ I2 i F') |]].
    destruct I0 as [Hp _]. rewrite Hp. exact N.
Qed.






Lemma alcanzable_doble1 : alcanzable (EnFalla B2) s_doble1.
Proof.
  apply (alc_paso EnMain s_doble0 _ _ (snd (paso EnMain s_doble0))).
  - apply (alc_inicio hw_doble _ (snd (inicio (estado_modulo hw_doble)))). reflexivity.
  - vm_compute. reflexivity.
Qed.


(** C2 at a reachable state of the single-fault loop, pump 2 faulted. *)
Lemma falla_enclavada_witness :
  alcanzable (EnFalla B2) s_doble1 /\ estado_falla (b2 s_doble1) = true /\
  (forall i, estado_falla (bomba i s_doble1) = true ->
             estado_bomba (bomba i s_doble1) = false) /\
  (forall (i : idb) (h : Hw) (n : nat), estado_falla (bomba i s_doble1) = true ->
     let '(_, s', ev) := ejecutar n (EnFalla B2) (set_hw h s_doble1) in
     estado_falla (bomba i s') = true /\ estado_bomba (bomba i s') = false /\
     ~ In (Rele (rele (bomba i s_doble1)) true) ev).
Proof.
  split; [exact alcanzable_doble1|]. split; [vm_compute; reflexivity|].
  exact (falla_enclavada _ _ alcanzable_doble1).
Defined.




(** ** A faulted pump is never started *)

(** C7 (as the code has it): [marcha] does not look at [estado_falla]: on any
    pump, faulted or not, it switches the relay on and sets [estado_bomba]
    to true, leaving [estado_falla] as it was; it has no error outcome.  In
    the program a faulted pump is nevertheless never started: from a
    reachable state, whatever inputs are read and after any number of loop
    iterations, the relay of a pump faulted in that state has not been
    switched on and the pump is still stopped. *)
Theorem marcha_enciende_siempre (l : Lugar) (s : Sistema) :
  alcanzable l s ->
  (forall b : Bomba,
     estado_bomba (fst (marcha b)) = true /\
     estado_falla (fst (marcha b)) = estado_falla b /\
     snd (marcha b) = [Rele (rele b) true]) /\
  (forall (i : idb) (h : Hw) (n : nat), estado_falla (bomba i s) = true ->
     let '(_, s', ev) := ejecutar n l (set_hw h s) in
     estado_bomba (bomba i s') = false /\ ~ In (Rele (pin_rele i) true) ev).
Proof.
  intros A. split; [intros b; cbn; auto|].
  pose proof (alcanzable_inv _ _ A) as I0.
  intros i h n F.
  destruct (ejecutar n l (set_hw h s)) as [[l' s'] ev] eqn:E.
  destruct (ejecutar_spec _ _ _ _ _ _ (inv_set_hw _ _ h I0) E) as [I2 R].
  rewrite <- (bomba_set_hw i h s) in F.
  destruct (R i F) as [F' N].
  exact (conj (inv_ok _ _ I2 i F') N).
Qed.

(** C7 at the reachable state where pump 2 has faulted. *)
Lemma marcha_enciende_siempre_witness :
  alcanzable (EnFalla B2) s_doble1 /\ estado_falla (b2 s_doble1) = true /\
  (forall b : Bomba,
     estado_bomba (fst (marcha b)) = true /\
     estado_falla (fst (marcha b)) = estado_falla b /\
     snd (marcha b) = [Rele (rele b) true]) /\
  (forall (i : idb) (h : Hw) (n : nat), estado_falla (bomba i s_doble1) = true ->
     let '(_, s', ev) := ejecutar n (EnFalla B2) (set_hw h s_doble1) in
     estado_bomba (bomba i s') = false /\ ~ In (Rele (pin_rele i) true) ev).
Proof.
  split; [exact alcanzable_doble1|]. split; [vm_compute; reflexivity|].
  exact (marcha_enciende_siempre _ _ alcanzable_doble1).
Defined.

(** ** Never both pumps running *)

Lemma no_arranca_bind {A B} (m : M A) (k : A -> M B) :
  no_arranca m -> (forall a, no_arranca (k a)) -> no_arranca (bind m k).
Proof.
  intros Nm Nk s b s' ev H i E. partir H H1 a s1.
  exact (Nm _ _ _ _ H1 i (Nk a _ _ _ _ H i E)).
Qed.

Lemma no_arranca_intacto {A} (m : M A) : intacto m -> no_arranca m.
Proof.
  intros Im s a s' ev H i. destruct (Im _ _ _ _ H) as (E1 & E2 & _).
  rewrite (bombas_iguales _ _ E1 E2). auto.
Qed.

Lemma no_arranca_solo {A} (i : idb) (Q : A -> Prop) (m : M A) : solo i Q m -> no_arranca m.
Proof.
  intros Sm s a s' ev H j E. destruct (Sm _ _ _ _ H) as (_ & [O [_ V]] & _).
  destruct (idb_eq j i) as [-> | ->].
  - destruct V as [[_ V]|[_ V]]; congruence.
  - congruence.
Qed.

Lemma no_arranca_parada (j : idb) : no_arranca (metodo j parada).
Proof.
  intros s a s' ev H i E. apply metodo_inv in H as [-> _].
  destruct (idb_eq i j) as [-> | ->].
  - rewrite bomba_con_bomba in E. discriminate.
  - rewrite bomba_otra_con_bomba in E. exact E.
Qed.

Lemma no_arranca_medir_corriente (i : idb) : no_arranca (medir_corriente_b i).
Proof. exact (no_arranca_solo i _ _ (solo_medir_corriente i)). Qed.

Lemma no_arranca_medir_temperatura (i : idb) : no_arranca (medir_temperatura_b i).
Proof. exact (no_arranca_solo i _ _ (solo_medir_temperatura i)). Qed.

Ltac no_arranca_tac :=
  repeat first
    [ apply no_arranca_parada
    | apply no_arranca_medir_corriente
    | apply no_arranca_medir_temperatura
    | apply no_arranca_intacto; solve [intacto_tac]
    | apply no_arranca_bind; [|intro]
    | match goal with
      | |- no_arranca (if ?b then _ else _) => destruct b
      | |- no_arranca (match ?r with Some _ => _ | None => _ end) => destruct r
      end
    | progress cbv beta
    | progress unfold rama_medicion, verificar_falla ].

Lemma mantiene_bind {A B} (m : M A) (k : A -> M B) :
  mantiene_exclusivas m -> (forall a, mantiene_exclusivas (k a)) ->
  mantiene_exclusivas (bind m k).
Proof.
  intros Mm Mk s b s' ev H X. partir H H1 a s1. exact (Mk a _ _ _ _ H (Mm _ _ _ _ H1 X)).
Qed.

Lemma mantiene_no_arranca {A} (m : M A) : no_arranca m -> mantiene_exclusivas m.
Proof.
  intros Nm s a s' ev H X. unfold exclusivas in *.
  destruct (estado_bomba (b1 s')) eqn:E1; [|reflexivity].
  destruct (estado_bomba (b2 s')) eqn:E2; [|reflexivity].
  apply (Nm _ _ _ _ H B1) in E1. apply (Nm _ _ _ _ H B2) in E2.
  cbn in E1, E2. rewrite E1, E2 in X. discriminate.
Qed.

(** Stop pump [j], wait, start the other one: pump [j] ends stopped. *)
Lemma mantiene_arranque (j : idb) (l1 l2 : texto) :
  mantiene_exclusivas (metodo j parada ;; dormir 1000 ;; metodo (otra j) marcha ;; display l1 l2).
Proof.
  intros s a s' ev H _.
  partir H H1 u1 s1. apply metodo_inv in H1 as [-> _].
  partir H H2 u2 s2. destruct (intacto_dormir _ _ _ _ _ H2) as (E1 & E2 & _).
  pose proof (bombas_iguales _ _ E1 E2) as B2. clear H2 E1 E2.
  partir H H3 u3 s3. apply metodo_inv in H3 as [-> _].
  destruct (intacto_display _ _ _ _ _ _ H) as (E1 & E2 & _).
  pose proof (bombas_iguales _ _ E1 E2) as B3. clear H E1 E2.
  assert (P : estado_bomba (bomba j s') = false).
  { rewrite B3, bomba_con_otra, B2, bomba_con_bomba. reflexivity. }
  unfold exclusivas. destruct j; cbn in P; rewrite P; [reflexivity | apply andb_false_r].
Qed.

Ltac exclusivas_tac :=
  repeat first
    [ apply mantiene_arranque
    | apply mantiene_no_arranca; solve [no_arranca_tac]
    | apply mantiene_bind; [|intro]
    | match goal with
      | |- mantiene_exclusivas (if ?b then _ else _) => destruct b
      end
    | progress cbv beta ].

Lemma mantiene_iteracion_main : mantiene_exclusivas iteracion_main.
Proof.
  unfold iteracion_main. apply mantiene_bind; [|intro].
  - unfold marcha_manual. exclusivas_tac.
  - apply mantiene_bind; [|intro].
    + unfold marcha_auto. exclusivas_tac.
    + apply mantiene_no_arranca. no_arranca_tac.
Qed.

Lemma exclusivas_inv (l : Lugar) (s : Sistema) : inv l s -> l <> EnMain -> exclusivas s.
Proof.
  intros [_ X] N. unfold exclusivas. destruct l as [|c|t]; [congruence| |].
  - destruct X as (_ & Bc & _). destruct c; cbv [bomba] in Bc; rewrite Bc;
      [reflexivity | apply andb_false_r].
  - pose proof (proj2 (X B1)) as E. cbv [bomba] in E. rewrite E. reflexivity.
Qed.

Lemma paso_exclusivas (l : Lugar) (s : Sistema) (l' : Lugar) (s' : Sistema) (ev : list evento) :
  inv l s -> exclusivas s -> paso l s = (l', s', ev) -> exclusivas s'.
Proof.
  intros I0 X H. destruct l as [|c|t].
  - cbn [paso] in H. partir H H1 r s1. apply ret_inv in H as (-> & -> & ->).
    exact (mantiene_iteracion_main _ _ _ _ H1 X).
  - destruct (cuerpo_falla_spec _ _ _ _ _ I0 H) as (I1 & _ & L).
    apply (exclusivas_inv _ _ I1). destruct L as [-> | ->]; discriminate.
  - cbn [paso] in H. partir H H1 u s1. apply ret_inv in H as (-> & -> & ->).
    refine (mantiene_no_arranca (alarma t) _ _ _ _ _ H1 X).
    apply no_arranca_intacto, intacto_alarma.
Qed.

(** In every state reached by [main], between two iterations of whichever
    loop it is in, the two pumps are not both running: [main] only ever
    starts a pump right after stopping the other one, and the single-fault
    loop only starts the healthy pump while the faulted one is stopped. *)
Theorem bombas_exclusivas (l : Lugar) (s : Sistema) :
  alcanzable l s -> ~ (estado_bomba (b1 s) = true /\ estado_bomba (b2 s) = true).
Proof.
  intros A. assert (X : exclusivas s).
  { induction A as [h s ev H|l s l' s' ev A IH H].
    - vm_compute in H. inversion H; subst. reflexivity.
    - exact (paso_exclusivas _ _ _ _ _ (alcanzable_inv _ _ A) IH H). }
  unfold exclusivas in X. intros [E1 E2]. rewrite E1, E2 in X. discriminate.
Qed.

Lemma bombas_exclusivas_witness :
  alcanzable (EnFalla B2) s_doble1 /\
  ~ (estado_bomba (b1 s_doble1) = true /\ estado_bomba (b2 s_doble1) = true).
Proof.
  split; [exact alcanzable_doble1|].
  exact (bombas_exclusivas _ _ alcanzable_doble1).
Defined.

(** ** Which loops are reached *)

(** [main] only ever reaches its own loop, a single-fault loop of
    [verificar_falla], or the alarm loop that shows ['servicio técnico']
    (entered from a single-fault loop): the alarm loop of the dual-fault
    branch, the one that shows ['servivcio técnico'], is never entered,
    because [verificar_falla] is called from [main] with only the pump just
    measured faulted. *)
Theorem lugares_alcanzables (l : Lugar) (s : Sistema) :
  alcanzable l s ->
  (l = EnMain \/ (exists c, l = EnFalla c) \/ l = EnAlarma linea_servicio) /\
  l <> EnAlarma linea_servivcio.
Proof.
  intros A. assert (L : l = EnMain \/ (exists c, l = EnFalla c) \/ l = EnAlarma linea_servicio).
  { induction A as [h s ev H|l s l' s' ev A IH H]; [left; reflexivity|].
    destruct IH as [-> | [[c ->] | ->]].
    - cbn [paso] in H. partir H H1 r s1. apply ret_inv in H as (-> & -> & ->).
      destruct (iteracion_main_spec _ _ _ _ (alcanzable_inv _ _ A) H1)
        as [[-> _]|(i & -> & _)]; eauto.
    - destruct (cuerpo_falla_spec _ _ _ _ _ (alcanzable_inv _ _ A) H) as (_ & _ & [-> | ->]);
        eauto.
    - cbn [paso] in H. partir H H1 u s1. apply ret_inv in H as (-> & -> & ->). auto. }
  split; [exact L|].
  destruct L as [-> | [[c ->] | ->]]; discriminate.
Qed.

Lemma lugares_alcanzables_witness :
  alcanzable (EnFalla B2) s_doble1 /\
  ((EnFalla B2 = EnMain \/ (exists c, EnFalla B2 = EnFalla c) \/
    EnFalla B2 = EnAlarma linea_servicio) /\
   EnFalla B2 <> EnAlarma linea_servivcio).
Proof.
  split; [exact alcanzable_doble1|].
  exact (lugares_alcanzables _ _ alcanzable_doble1).
Defined.

(** ** The single-fault loop follows the float *)

(** One iteration of the single-fault loop for the faulted pump [c], the
    float reading [v]: afterwards the healthy pump runs exactly when the float
    read high and it has not faulted (a fault found by its measurement stops
    it at once), the faulted pump is stopped, and the loop moves to the alarm
    loop exactly when the float is high and the healthy pump had already
    faulted. *)
Theorem falla_sigue_flotante (c : idb) (s : Sistema) (v : bool) (fs : list bool)
    (I : inv (EnFalla c) s) (Hf : hw_flotante (hw s) = v :: fs) :
  let '(l', s', ev) := cuerpo_falla c s in
  estado_bomba (bomba (otra c) s') = v && negb (estado_falla (bomba (otra c) s')) /\
  estado_bomba (bomba c s') = false /\
  (l' = EnAlarma linea_servicio <-> v = true /\ estado_falla (bomba (otra c) s) = true).
Proof.
  destruct (cuerpo_falla c s) as [[l' s'] ev] eqn:H.
  destruct I as [_ [Fc [Bc Ok]]].
  unfold cuerpo_falla in H. partir H H1 f s1.
  pose proof (verificar_flotante_eq s) as V. rewrite H1, Hf in V. cbn [pop fst snd] in V.
  destruct V as (-> & _ & _ & E1 & E2 & _ & _).
  pose proof (bombas_iguales _ _ E1 E2) as B. clear H1 E1 E2.
  destruct v.
  - partir H H2 fs1 s2. apply gets_inv in H2 as (-> & -> & ->).
    rewrite B in H.
    destruct (estado_falla (bomba (otra c) s)) eqn:Fo; cbn [negb] in H.
    + apply ret_inv in H as (-> & -> & ->). rewrite !B, Fo, (Ok Fo).
      split; [reflexivity | split; [exact Bc | tauto]].
    + partir H H3 u3 s3. apply metodo_inv in H3 as [-> _].
      match type of H with ?m _ = _ =>
        assert (S : solo (otra c) (fun l => l = EnFalla c) m) by solo_tac end.
      destruct (S _ _ _ _ H) as (-> & [O V] & _). clear S H.
      rewrite bomba_otra_con_bomba, otra_otra in O.
      rewrite bomba_con_bomba in V.
      assert (Bc' : estado_bomba (bomba c s') = false) by (rewrite O, B; exact Bc).
      assert (A : EnFalla c = EnAlarma linea_servicio <-> true = true /\ false = true)
        by (split; [discriminate | intros [_ X]; discriminate]).
      destruct V as [_ [[F E]|[F E]]];
        cbn [marcha fst set_estado_bomba estado_falla estado_bomba] in F, E.
      * rewrite E, F, B, Fo. auto.
      * rewrite E, F. auto.
  - partir H H2 u2 s2. apply metodo_inv in H2 as [-> _].
    apply ret_inv in H as (-> & -> & ->).
    rewrite bomba_con_bomba, bomba_con_otra, !B.
    split; [reflexivity | split; [exact Bc|]].
    split; [discriminate | intros [X _]; discriminate].
Qed.

Lemma falla_sigue_flotante_witness :
  inv (EnFalla B2) s_doble1 /\ hw_flotante (hw s_doble1) = [true; false] /\
  (let '(l', s', ev) := cuerpo_falla B2 s_doble1 in
   estado_bomba (bomba (otra B2) s') = true && negb (estado_falla (bomba (otra B2) s')) /\
   estado_bomba (bomba B2 s') = false /\
   (l' = EnAlarma linea_servicio <-> true = true /\ estado_falla (bomba (otra B2) s_doble1) = true)).
Proof.
  assert (I : inv (EnFalla B2) s_doble1) by exact (alcanzable_inv _ _ alcanzable_doble1).
  assert (Hf : hw_flotante (hw s_doble1) = [true; false]) by (vm_compute; reflexivity).
  split; [exact I|]. split; [exact Hf|].
  exact (falla_sigue_flotante B2 s_doble1 true [false] I Hf).
Defined.

(** ** A temperature reading *)

Lemma quot16_umbral (raw t : Z) : 0 < t -> (Z.quot raw 16 >=? t) = (16 * t <=? raw).
Proof.
  intros Ht. rewrite Z.geb_leb. destruct (Z.leb_spec (16 * t) raw) as [L|L].
  - apply Z.leb_le. rewrite Z.quot_div_nonneg by lia.
    apply Z.div_le_lower_bound; lia.
  - apply Z.leb_gt. destruct (Z.le_gt_cases 0 raw) as [P|P].
    + rewrite Z.quot_div_nonneg by lia. apply Z.div_lt_upper_bound; lia.
    + assert (Q : Z.quot raw 16 = - Z.quot (- raw) 16).
      { rewrite Z.quot_opp_l by lia. lia. }
      rewrite Q, Z.quot_div_nonneg by lia.
      pose proof (Z.div_pos (- raw) 16 ltac:(lia) ltac:(lia)). lia.
Qed.

(** A successful DS18B20 reading [raw] (sixteenths of a degree) faults the
    pump exactly when [raw >= 16 * temp_falla], i.e. when the temperature is
    at least [temp_falla] degrees: [int()] truncates toward zero, which does
    not move a positive threshold.  Faulting stops the pump and keeps the
    stored temperature; otherwise [int(temperature)] is stored and nothing
    else changes.  Either way the bus is not reset. *)
Theorem medir_temperatura_umbral (raw : Z) (b : Bomba) (Ht : 0 < temp_falla b) :
  let '(b', ev) := medir_temperatura (TempOk raw) b in
  if 16 * temp_falla b <=? raw then
    estado_falla b' = true /\ estado_bomba b' = false /\ temperatura b' = temperatura b /\
    corriente b' = corriente b /\
    ev = [ConvertirTemp (pin_sensor b); Dormir 1000; LeerTemp (pin_sensor b); Rele (rele b) false]
  else
    b' = set_temperatura (Z.quot raw 16) b /\
    ev = [ConvertirTemp (pin_sensor b); Dormir 1000; LeerTemp (pin_sensor b)].
Proof.
  unfold medir_temperatura, cuerpo_try_temperatura.
  rewrite (quot16_umbral raw _ Ht).
  destruct (16 * temp_falla b <=? raw); cbn; repeat split.
Qed.

Lemma medir_temperatura_umbral_witness :
  let b := b1 (estado_modulo (mkHw [] [] [] [] [])) in
  0 < temp_falla b /\
  (let '(b', ev) := medir_temperatura (TempOk 1119) b in
   if 16 * temp_falla b <=? 1119 then
     estado_falla b' = true /\ estado_bomba b' = false /\ temperatura b' = temperatura b /\
     corriente b' = corriente b /\
     ev = [ConvertirTemp (pin_sensor b); Dormir 1000; LeerTemp (pin_sensor b); Rele (rele b) false]
   else
     b' = set_temperatura (Z.quot 1119 16) b /\
     ev = [ConvertirTemp (pin_sensor b); Dormir 1000; LeerTemp (pin_sensor b)]).
Proof.
  assert (Ht : 0 < temp_falla (b1 (estado_modulo (mkHw [] [] [] [] [])))) by reflexivity.
  split; [exact Ht|].
  exact (medir_temperatura_umbral 1119 _ Ht).
Defined.

(** ** No way back from a single-fault loop *)

Lemma resulta_bind {A B} (Q : B -> Prop) (m : M A) (k : A -> M B) :
  (forall a, resulta Q (k a)) -> resulta Q (bind m k).
Proof. intros Rk s b s' ev H. partir H H1 a s1. exact (Rk _ _ _ _ _ H). Qed.

Lemma resulta_ret {A} (Q : A -> Prop) (a : A) : Q a -> resulta Q (ret a).
Proof. intros Qa s b s' ev H. apply ret_inv in H as (-> & _ & _). exact Qa. Qed.

Ltac resulta_tac :=
  repeat first
    [ apply resulta_ret; auto
    | apply resulta_bind; intro
    | match goal with |- resulta _ (if ?b then _ else _) => destruct b end
    | progress cbv beta zeta ].

Lemma paso_desde_falla (c : idb) (l : Lugar) :
  l = EnFalla c \/ l = EnAlarma linea_servicio ->
  resulta (fun l' => l' = EnFalla c \/ l' = EnAlarma linea_servicio) (paso l).
Proof.
  intros [-> | ->]; cbn [paso]; [unfold cuerpo_falla|]; resulta_tac.
Qed.

(** Once [main] has entered the single-fault loop for pump [c], it never
    leaves it except for the alarm loop: after any number of iterations,
    whatever the inputs, the program is in that same loop or in the alarm
    loop, never back in the loop of [main] (even if the float and the healthy
    pump keep working). *)
Theorem falla_sin_retorno (c : idb) (n : nat) (s : Sistema) :
  let '(l', _, _) := ejecutar n (EnFalla c) s in
  l' = EnFalla c \/ l' = EnAlarma linea_servicio.
Proof.
  assert (G : forall k l, l = EnFalla c \/ l = EnAlarma linea_servicio ->
            resulta (fun l' => l' = EnFalla c \/ l' = EnAlarma linea_servicio) (ejecutar k l)).
  { induction k as [|k IH]; intros l L; cbn [ejecutar].
    - apply resulta_ret. exact L.
    - intros s1 l' s' ev H. partir H H1 l1 s2.
      exact (IH l1 (paso_desde_falla c l L _ _ _ _ H1) _ _ _ _ H). }
  destruct (ejecutar n (EnFalla c) s) as [[l' s'] ev] eqn:E.
  exact (G n (EnFalla c) (or_introl eq_refl) _ _ _ _ E).
Qed.

(** ** The relays show [estado_bomba] *)

Lemma nivel_rele_app (p : Z) (v : bool) (e1 e2 : list evento) :
  nivel_rele p v (e1 ++ e2) = nivel_rele p (nivel_rele p v e1) e2.
Proof. unfold nivel_rele. apply fold_left_app. Qed.

Lemma sin_rele_nivel (p : Z) (ev : list evento) : sin_rele ev -> forall v, nivel_rele p v ev = v.
Proof.
  induction 1 as [|e t N F IH]; intros v; [reflexivity|].
  destruct e; try contradiction; apply IH.
Qed.

(** Writes to the relay on [q] only. *)
Lemma otro_rele_nivel (p q : Z) (ev : list evento) :
  Forall (fun e => match e with Rele r _ => r = q | _ => True end) ev -> p <> q ->
  forall v, nivel_rele p v ev = v.
Proof.
  induction 1 as [|e t N F IH]; intros D v; [reflexivity|].
  change (e :: t) with ([e] ++ t). rewrite nivel_rele_app, IH by exact D.
  destruct e; try reflexivity. subst. cbn. destruct (Z.eqb_spec q p); [congruence | reflexivity].
Qed.

Lemma refleja_bind {A B} (m : M A) (k : A -> M B) :
  refleja m -> (forall a, refleja (k a)) -> refleja (bind m k).
Proof.
  intros Rm Rk s b s' ev P H. partir H H1 a s1.
  destruct (Rm _ _ _ _ P H1) as [P1 N1]. destruct (Rk _ _ _ _ _ P1 H) as [P2 N2].
  split; [exact P2|]. intros i. rewrite nivel_rele_app, N1. apply N2.
Qed.

Lemma refleja_quieto {A} (m : M A) :
  (forall s a s' ev, m s = (a, s', ev) -> b1 s' = b1 s /\ b2 s' = b2 s /\ sin_rele ev) ->
  refleja m.
Proof.
  intros Hm s a s' ev P H. destruct (Hm _ _ _ _ H) as (E1 & E2 & N).
  pose proof (bombas_iguales _ _ E1 E2) as B.
  split; [intros i; rewrite B; apply P|]. intros i. rewrite (sin_rele_nivel _ _ N), B. reflexivity.
Qed.

Lemma refleja_ret {A} (a : A) : refleja (ret a).
Proof. apply refleja_quieto. intros s b s' ev H. inversion H; subst. repeat constructor. Qed.

Lemma refleja_gets {A} (f : Sistema -> A) : refleja (gets f).
Proof. apply refleja_quieto. intros s b s' ev H. inversion H; subst. repeat constructor. Qed.

Lemma refleja_emitir (l : list evento) : sin_rele l -> refleja (emitir l).
Proof. intros N. apply refleja_quieto. intros s b s' ev H. inversion H; subst. auto. Qed.

Lemma refleja_modify (f : Sistema -> Sistema) :
  (forall s, b1 (f s) = b1 s /\ b2 (f s) = b2 s) -> refleja (modify f).
Proof.
  intros Hf. apply refleja_quieto. intros s b s' ev H. inversion H; subst.
  destruct (Hf s). repeat split; auto. constructor.
Qed.

Lemma refleja_leer (e : entrada) : refleja (leer e).
Proof.
  apply refleja_quieto. intros s b s' ev H. unfold leer in H.
  destruct e; cbn in H; destruct (pop _ _); inversion H; subst; repeat constructor.
Qed.

Lemma refleja_leer_adc : refleja leer_adc.
Proof.
  apply refleja_quieto. intros s b s' ev H. destruct (leer_adc_forma s) as (w & h & E).
  rewrite E in H. inversion H; subst. repeat constructor.
Qed.

Lemma refleja_leer_ds18 : refleja leer_ds18.
Proof.
  apply refleja_quieto. intros s b s' ev H. destruct (leer_ds18_forma s) as (r & h & E).
  rewrite E in H. inversion H; subst. repeat constructor.
Qed.

(** A method of pump [j] that drives only its own relay, to the level it
    records. *)
Definition metodo_fiel (f : Bomba -> Bomba * list evento) : Prop :=
  forall b, rele (fst (f b)) = rele b /\
    Forall (fun e => match e with Rele r _ => r = rele b | _ => True end) (snd (f b)) /\
    nivel_rele (rele b) (estado_bomba b) (snd (f b)) = estado_bomba (fst (f b)).

Lemma refleja_metodo (j : idb) (f : Bomba -> Bomba * list evento) :
  metodo_fiel f -> refleja (metodo j f).
Proof.
  intros Hf s a s' ev P H. apply metodo_inv in H as [-> ->].
  destruct (Hf (bomba j s)) as (R & F & N).
  split.
  - intros i. destruct (idb_eq i j) as [-> | ->].
    + rewrite bomba_con_bomba, R. apply P.
    + rewrite bomba_otra_con_bomba. apply P.
  - intros i. destruct (idb_eq i j) as [-> | ->].
    + rewrite bomba_con_bomba, <- (P j). exact N.
    + rewrite bomba_otra_con_bomba. apply (otro_rele_nivel _ (rele (bomba j s))); [exact F|].
      rewrite (P j). apply pin_rele_otra.
Qed.

Lemma fiel_marcha : metodo_fiel marcha.
Proof. intros b. cbn. rewrite Z.eqb_refl. repeat constructor. Qed.

Lemma fiel_parada : metodo_fiel parada.
Proof. intros b. cbn. rewrite Z.eqb_refl. repeat constructor. Qed.

Lemma fiel_falla : metodo_fiel falla.
Proof. intros b. cbn. rewrite Z.eqb_refl. repeat constructor. Qed.

Lemma fiel_medir_corriente (w : nat -> Z) : metodo_fiel (medir_corriente w).
Proof.
  intros b. unfold medir_corriente. generalize (max_lista (muestras w)). intros m.
  destruct (m >=? corriente_falla b); cbn; [rewrite Z.eqb_refl|]; repeat constructor.
Qed.

Lemma fiel_medir_temperatura (r : lectura_temp) : metodo_fiel (medir_temperatura r).
Proof.
  intros b. unfold medir_temperatura, cuerpo_try_temperatura.
  destruct r as [raw| |]; cbn; [destruct (Z.quot raw 16 >=? temp_falla b); cbn;
    [rewrite Z.eqb_refl|]|..]; repeat constructor.
Qed.

Ltac refleja_tac :=
  repeat first
    [ apply refleja_ret
    | apply refleja_gets
    | apply refleja_leer
    | apply refleja_leer_adc
    | apply refleja_leer_ds18
    | apply refleja_emitir; repeat constructor
    | apply refleja_modify; intros; split; reflexivity
    | apply refleja_metodo; first [ apply fiel_marcha | apply fiel_parada | apply fiel_falla
                                  | apply fiel_medir_corriente | apply fiel_medir_temperatura ]
    | apply refleja_bind; [|intro]
    | match goal with
      | |- refleja (if ?b then _ else _) => destruct b
      | |- refleja (match ?r with Some _ => _ | None => _ end) => destruct r
      end
    | progress cbv beta zeta
    | progress unfold marcha_manual, marcha_auto, verificar_manual, verificar_bomba1,
        verificar_flotante, rama_medicion, verificar_falla, medir_corriente_b,
        medir_temperatura_b, mostrar_medicion, display, dormir, alarma ].

Lemma refleja_paso (l : Lugar) : refleja (paso l).
Proof. destruct l; cbn [paso]; [unfold iteracion_main | unfold cuerpo_falla |]; refleja_tac. Qed.

Lemma refleja_ejecutar (n : nat) : forall l, refleja (ejecutar n l).
Proof.
  induction n as [|k IH]; intros l; cbn [ejecutar]; [apply refleja_ret|].
  apply refleja_bind; [apply refleja_paso | intros; apply IH].
Qed.

(** After start-up and any number of iterations of the loops, whatever the
    inputs and whatever the relays' levels at power-up, the level last written
    to each pump's relay (Pin 22 for pump 1, Pin 21 for pump 2) is its
    [estado_bomba]: the flag that [main] tests to decide which pump to
    measure is the relay's actual state. *)
Theorem rele_refleja_estado (h : Hw) (n : nat) (v0 : bool) :
  let '(_, s, ev1) := inicio (estado_modulo h) in
  let '(_, s', ev2) := ejecutar n EnMain s in
  forall i, nivel_rele (pin_rele i) v0 (ev1 ++ ev2) = estado_bomba (bomba i s').
Proof.
  destruct (inicio (estado_modulo h)) as [[u s] ev1] eqn:E0.
  destruct (ejecutar n EnMain s) as [[l s'] ev2] eqn:E.
  vm_compute in E0. inversion E0; subst; clear E0.
  assert (P : pines (mkSistema (b1 (estado_modulo h)) (b2 (estado_modulo h)) 0 false h))
    by (intros [|]; reflexivity).
  destruct (refleja_ejecutar n EnMain _ _ _ _ P E) as [_ N].
  intros i. rewrite nivel_rele_app, <- N. destruct i; reflexivity.
Qed.

(** ** ControlSemaforos.py *)

Module PropSemaforos.
Import Semaforos.

Lemma nivel_app (p : Z) (v : bool) (e1 e2 : list evento) :
  nivel p v (e1 ++ e2) = nivel p (nivel p v e1) e2.
Proof. unfold nivel. apply fold_left_app. Qed.

Lemma nivel_cons (p : Z) (v : bool) (e : evento) (t : list evento) :
  nivel p v (e :: t) = nivel p (nivel p v [e]) t.
Proof. reflexivity. Qed.

Lemma segura_neg (v r : bool) (ev : list evento) : segura v r ev = negb (v && r) && segura v r ev.
Proof. destruct ev; cbn; destruct v, r; reflexivity. Qed.

Lemma segura_app (e1 : list evento) : forall v r e2,
  segura v r (e1 ++ e2) = segura v r e1 && segura (nivel 18 v e1) (nivel 17 r e1) e2.
Proof.
  induction e1 as [|e e1 IH]; intros v r e2.
  - cbn [app nivel fold_left]. rewrite (segura_neg v r e2) at 1. cbn. rewrite andb_true_r. reflexivity.
  - cbn [app segura]. rewrite IH, andb_assoc. rewrite (nivel_cons 18 v e e1), (nivel_cons 17 r e e1).
    reflexivity.
Qed.

Lemma sin_escrituras_nivel (p : Z) (ev : list evento) :
  Forall (fun e => ~ escritura e) ev -> forall v, nivel p v ev = v.
Proof.
  induction 1 as [|e t N F IH]; intros v; [reflexivity|].
  rewrite nivel_cons. destruct e; try (apply IH). cbn in N. tauto.
Qed.

Lemma sin_escrituras_segura (ev : list evento) :
  Forall (fun e => ~ escritura e) ev -> forall v r, segura v r ev = negb (v && r).
Proof.
  induction 1 as [|e t N F IH]; intros v r; [cbn; apply andb_true_r|].
  cbn [segura]. destruct e; try (cbn in N; tauto); cbn [nivel fold_left]; rewrite IH;
    apply andb_diag.
Qed.

Lemma rojas_app (e1 e2 : list evento) : rojas (e1 ++ e2) = (rojas e1 + rojas e2)%nat.
Proof. unfold rojas. rewrite filter_app. apply length_app. Qed.

Lemma sin_escrituras_rojas (ev : list evento) :
  Forall (fun e => ~ escritura e) ev -> rojas ev = O.
Proof.
  induction 1 as [|e t N F IH]; [reflexivity|].
  change (e :: t) with ([e] ++ t). rewrite rojas_app, IH.
  destruct e; cbn in N |- *; tauto || reflexivity.
Qed.

(** One test of the loop: no output is touched; it is true only on two
    high readings in a row, which it consumes. *)
Lemma leer_barrera_spec (s : Estado) :
  let '(c, s1, e1) := leer_barrera s in
  salidas s1 = salidas s /\ Forall (fun e => ~ escritura e) e1 /\
  (if verdadero c then exists r, lecturas_barrera s = true :: true :: r /\ lecturas_barrera s1 = r
   else pares_altos (lecturas_barrera s) = O /\
        (List.length (lecturas_barrera s1) <= List.length (lecturas_barrera s))%nat).
Proof.
  destruct s as [o est lb la].
  destruct lb as [|[] [|[] r]]; destruct la as [|a la]; cbn;
    (split; [reflexivity | split; [repeat constructor; intros []|]]); eauto; split; auto.
Qed.

Lemma fase_roja_eq (s : Estado) :
  fase_roja s =
  (mkEstado (mkSalidas true true false true) (estado s) (lecturas_barrera s) (lecturas_ajuste s),
   [Escribir 18 false; Escribir 17 true; Escribir 20 true; Escribir 19 true; Dormir 5]).
Proof. destruct s as [[bd bi v r] est lb la]. reflexivity. Qed.

Lemma fin_control_eq (s : Estado) :
  fin_control s =
  (mkEstado (mkSalidas false false true false) (estado s) (lecturas_barrera s) (lecturas_ajuste s),
   [Escribir 17 false; Escribir 19 false; Escribir 20 false; Escribir 18 true]).
Proof. destruct s as [[bd bi v r] est lb la]. reflexivity. Qed.

Lemma bucle_luces_spec (fuel : nat) : forall s,
  (List.length (lecturas_barrera s) < fuel)%nat ->
  exists s' e, bucle_luces fuel s = Some (s', e) /\
    rojas e = pares_altos (lecturas_barrera s) /\
    (forall v r, negb (v && r) = true ->
       segura v r e = true /\ negb (nivel 18 v e && nivel 17 r e) = true).
Proof.
  induction fuel as [|k IH]; intros s L; [lia|].
  cbn [bucle_luces]. pose proof (leer_barrera_spec s) as X.
  destruct (leer_barrera s) as [[c s1] e1]. destruct X as (_ & N1 & X).
  destruct (verdadero c).
  - destruct X as (r & E & E1). rewrite fase_roja_eq.
    destruct (IH (mkEstado (mkSalidas true true false true) (estado s1) (lecturas_barrera s1)
                   (lecturas_ajuste s1))) as (s3 & e3 & B & R & S);
      [cbn; rewrite E1; rewrite E in L; cbn in L; lia|].
    rewrite B. eexists _, _. split; [reflexivity|]. split.
    + rewrite !rojas_app, (sin_escrituras_rojas _ N1), R, E. cbn. rewrite E1. reflexivity.
    + intros v r0 V. destruct (S false true eq_refl) as [S1 S2].
      rewrite !segura_app, !nivel_app, (sin_escrituras_segura _ N1), !(sin_escrituras_nivel _ _ N1), V.
      cbn [segura nivel fold_left Z.eqb Pos.eqb negb andb].
      destruct v, r0; cbn; rewrite ?S1, ?S2; auto.
  - eexists _, _. split; [reflexivity|]. split.
    + rewrite (sin_escrituras_rojas _ N1). symmetry. apply X.
    + intros v r V. rewrite (sin_escrituras_segura _ N1), !(sin_escrituras_nivel _ _ N1). auto.
Qed.

Lemma control_luces_spec (s : Estado) :
  exists s' ev, control_luces s = Some (s', ev) /\
    salidas s' = mkSalidas false false true false /\
    (exists e0, ev = e0 ++ [Escribir 17 false; Escribir 19 false; Escribir 20 false; Escribir 18 true]) /\
    rojas ev = pares_altos (lecturas_barrera s) /\
    (forall v r, negb (v && r) = true ->
       segura v r ev = true /\ nivel 18 v ev = true /\ nivel 17 r ev = false).
Proof.
  unfold control_luces.
  destruct (bucle_luces_spec (S (List.length (lecturas_barrera s))) s ltac:(lia))
    as (s1 & e1 & B & R & S).
  rewrite B, fin_control_eq. eexists _, _. split; [reflexivity|].
  split; [reflexivity|]. split; [eexists; reflexivity|]. split.
  - rewrite rojas_app, R. cbn. lia.
  - intros v r V. destruct (S v r V) as [S1 S2].
    rewrite segura_app, !nivel_app, S1.
    split; [|split; reflexivity].
    destruct (nivel 18 v e1), (nivel 17 r e1); cbn in S2 |- *; congruence.
Qed.

(** Whenever [control_luces] returns, the green light is on and the red
    light and both buzzers are off: its last four writes are red off, left
    buzzer off, right buzzer off, green on. *)
Theorem control_luces_termina_en_verde (s s' : Estado) (ev : list evento)
    (H : control_luces s = Some (s', ev)) :
  verde (salidas s') = true /\ roja (salidas s') = false /\
  buzzer_d (salidas s') = false /\ buzzer_i (salidas s') = false /\
  exists e0, ev = e0 ++ [Escribir 17 false; Escribir 19 false; Escribir 20 false; Escribir 18 true].
Proof.
  destruct (control_luces_spec s) as (s1 & ev1 & E & O & X & _).
  rewrite E in H. injection H as <- <-. rewrite O. cbn. auto.
Qed.

Lemma control_luces_termina_en_verde_witness :
  let s := mkEstado (mkSalidas false false true false) false [true; true; false] [] in
  exists s' ev, control_luces s = Some (s', ev) /\
  verde (salidas s') = true /\ roja (salidas s') = false /\
  buzzer_d (salidas s') = false /\ buzzer_i (salidas s') = false /\
  exists e0, ev = e0 ++ [Escribir 17 false; Escribir 19 false; Escribir 20 false; Escribir 18 true].
Proof.
  cbv zeta.
  destruct (control_luces (mkEstado (mkSalidas false false true false) false [true; true; false] []))
    as [[s' ev]|] eqn:E; [|vm_compute in E; discriminate].
  exists s', ev. split; [reflexivity|].
  exact (control_luces_termina_en_verde _ s' ev E).
Defined.

(** Debouncing of the barrier: [control_luces] switches the red light on once
    per pair of consecutive high barrier readings (taken an adjustable delay
    apart) at the start of its readings, and stops at the first pair that is
    not both high; a single high reading never turns the red light on. *)
Theorem control_luces_fases_rojas (s : Estado) :
  match control_luces s with
  | Some (s', ev) => rojas ev = pares_altos (lecturas_barrera s)
  | None => False
  end.
Proof.
  destruct (control_luces_spec s) as (s' & ev & -> & _ & _ & R & _). exact R.
Qed.

Lemma segura_prefijo (v r : bool) (ev e1 e2 : list evento) :
  segura v r ev = true -> ev = e1 ++ e2 -> nivel 18 v e1 && nivel 17 r e1 = false.
Proof.
  intros S ->. rewrite segura_app in S. apply andb_prop in S as [_ S].
  rewrite segura_neg in S. apply andb_prop in S as [S _].
  destruct (nivel 18 v e1), (nivel 17 r e1); cbn in S |- *; congruence.
Qed.

Lemma main_luces_segura (n : nat) : forall s v r, negb (v && r) = true ->
  exists s' ev, main_luces n s = Some (s', ev) /\ segura v r ev = true.
Proof.
  induction n as [|k IH]; intros s v r V.
  - eexists _, _. split; [reflexivity|]. cbn. rewrite V. reflexivity.
  - cbn [main_luces]. destruct (control_luces_spec s) as (s1 & e1 & -> & _ & _ & _ & S).
    destruct (S v r V) as (S1 & N1 & N2).
    destruct (IH s1 true false eq_refl) as (s2 & e2 & -> & S2).
    eexists _, _. split; [reflexivity|]. rewrite segura_app, S1, N1, N2, S2. reflexivity.
Qed.

(** The green and the red light are never on together: from a state where
    they are not both on, over any number of iterations of the loop of
    [main], after every write the two lights are not both on. *)
Theorem luces_nunca_juntas (n : nat) (s : Estado)
    (H : verde (salidas s) && roja (salidas s) = false) :
  match main_luces n s with
  | Some (s', ev) =>
      forall e1 e2, ev = e1 ++ e2 ->
        nivel 18 (verde (salidas s)) e1 && nivel 17 (roja (salidas s)) e1 = false
  | None => False
  end.
Proof.
  destruct (main_luces_segura n s (verde (salidas s)) (roja (salidas s)) ltac:(rewrite H; reflexivity))
    as (s' & ev & -> & S).
  intros e1 e2 E. exact (segura_prefijo _ _ _ _ _ S E).
Qed.

Lemma luces_nunca_juntas_witness :
  let s := mkEstado (mkSalidas false false false false) false [true; true; false; true] [] in
  verde (salidas s) && roja (salidas s) = false /\
  match main_luces 2 s with
  | Some (s', ev) =>
      forall e1 e2, ev = e1 ++ e2 ->
        nivel 18 (verde (salidas s)) e1 && nivel 17 (roja (salidas s)) e1 = false
  | None => False
  end.
Proof.
  assert (H : verde (salidas (mkEstado (mkSalidas false false false false) false
                                  [true; true; false; true] []))
              && roja (salidas (mkEstado (mkSalidas false false false false) false
                                  [true; true; false; true] [])) = false) by reflexivity.
  split; [exact H|]. exact (luces_nunca_juntas 2 _ H).
Defined.

End PropSemaforos.

(** ** ObtenerHoraWifi.py *)

Module PropHoraWifi.
Import HoraWifi.

Lemma condicion_horaria (h : Z) : 0 <= h <= 23 ->
  ((0 <=? h - 3) && (h - 3 <? 7)) || ((19 <=? h - 3) && (h - 3 <=? 23))
  = ((3 <=? h) && (h <=? 9)) || (22 <=? h).
Proof.
  intros H.
  destruct (Z.leb_spec 0 (h - 3)), (Z.ltb_spec (h - 3) 7), (Z.leb_spec 19 (h - 3)),
    (Z.leb_spec (h - 3) 23), (Z.leb_spec 3 h), (Z.leb_spec h 9), (Z.leb_spec 22 h);
    cbn; try reflexivity; lia.
Qed.

(** With the clock set, for an hour [hora t] between 0 and 23,
    [activar_salida] turns the lamp on without reading the switch during the
    hours 3 to 9 and 22 to 23 (the hour as [utime.localtime()] gives it,
    minus 3 in [0, 7) or in [19, 23]); at the hours 0 to 2 ([hora[3] - 3] is
    negative) and 10 to 21 it reads the switch and sets the lamp to it.  It
    raises nothing. *)
Theorem activar_salida_horario (t : Tiempo) (s : Estado) (H : 0 <= hora t <= 23) :
  let '(e, s', ev) := activar_salida (SettimeOk t) s in
  e = None /\
  if ((3 <=? hora t) && (hora t <=? 9)) || (22 <=? hora t) then
    salida s' = true /\ lecturas_manual s' = lecturas_manual s /\
    ev = [Settime; Localtime; Salida true]
  else
    salida s' = fst (pop false (lecturas_manual s)) /\
    lecturas_manual s' = snd (pop false (lecturas_manual s)) /\
    ev = [Settime; Localtime; LeerManual (salida s'); Salida (salida s')].
Proof.
  unfold activar_salida. cbn [obtener_hora]. rewrite (condicion_horaria _ H).
  destruct (((3 <=? hora t) && (hora t <=? 9)) || (22 <=? hora t)); [cbn; auto|].
  destruct (lecturas_manual s) as [|[] r]; cbn; auto.
Qed.

Lemma activar_salida_horario_witness :
  let t := mkTiempo 2023 9 12 1 30 0 1 255 in
  let s := mkEstado false [false] in
  0 <= hora t <= 23 /\
  (let '(e, s', ev) := activar_salida (SettimeOk t) s in
   e = None /\
   if ((3 <=? hora t) && (hora t <=? 9)) || (22 <=? hora t) then
     salida s' = true /\ lecturas_manual s' = lecturas_manual s /\
     ev = [Settime; Localtime; Salida true]
   else
     salida s' = fst (pop false (lecturas_manual s)) /\
     lecturas_manual s' = snd (pop false (lecturas_manual s)) /\
     ev = [Settime; Localtime; LeerManual (salida s'); Salida (salida s')]).
Proof.
  assert (H : 0 <= hora (mkTiempo 2023 9 12 1 30 0 1 255) <= 23) by (cbn; lia).
  split; [exact H|]. exact (activar_salida_horario _ (mkEstado false [false]) H).
Defined.

(** While [ntptime.settime()] fails, with [OverflowError] (which
    [obtener_hora] turns into [None], so that [hora[3]] raises [TypeError])
    or with any other exception, each iteration of the main loop raises out
    of [activar_salida] before [utime.sleep(10)] and [continue]s: the loop
    leaves the lamp and the switch alone and calls [settime] again at once,
    without ever sleeping. *)
Theorem sin_hora_sin_cambios (rs : list resultado_settime) (s : Estado)
    (H : Forall fallido rs) :
  bucle rs s = (s, repeat Settime (List.length rs)).
Proof.
  induction H as [|r rs F _ IH]; [reflexivity|].
  destruct r as [t| |]; [contradiction| |]; cbn; rewrite IH; reflexivity.
Qed.

Lemma sin_hora_sin_cambios_witness :
  Forall fallido [SettimeOverflow; SettimeError] /\
  bucle [SettimeOverflow; SettimeError] (mkEstado true [false])
  = (mkEstado true [false], repeat Settime (List.length [SettimeOverflow; SettimeError])).
Proof.
  assert (H : Forall fallido [SettimeOverflow; SettimeError]) by (repeat constructor).
  split; [exact H|]. exact (sin_hora_sin_cambios _ _ H).
Defined.

End PropHoraWifi.
